(** * myCSVVisor: CSV loader, row filters, emitter colours, export and plot

    A shallow embedding of the C++/Qt sources of myCSVVisor and the proofs
    of the properties stated about them.

    Conventions of the embedding.
    - [std::string] and [QString] are [string]s of 8-bit characters; the
      texts handled here are ASCII, so byte length and character count agree.
    - [int] and [long long] are [Z]; the places where the code narrows a
      value write the wrap-around out.
    - [double] is modelled by exact rational arithmetic ([Q]): rounding,
      infinities and NaN are outside the model.
    - [QMap<int, QColor>] is a [gmap Z QColor].
    - Qt signals emitted by the loader are collected, in order, in a list. *)

From stdpp Require Import gmap strings list pretty.
From Stdlib Require Import Ascii ZArith QArith Lia Lqa.

Local Open Scope Z_scope.

(** ** Qt string primitives used by the sources *)

Module QString.

Definition newline : ascii := Ascii.ascii_of_nat 10.
Definition comma : ascii := Ascii.ascii_of_nat 44.
Definition dquote : ascii := Ascii.ascii_of_nat 34.
Definition colon : ascii := Ascii.ascii_of_nat 58.

Definition eqc (a b : ascii) : bool := Ascii.eqb a b.

Definition isEmpty (s : string) : bool :=
  match s with EmptyString => true | String _ _ => false end.

(** [QChar::isSpace] on the ASCII range: tab, LF, VT, FF, CR and space. *)
Definition isSpace (c : ascii) : bool :=
  let n := Ascii.nat_of_ascii c in
  ((9 <=? n)%nat && (n <=? 13)%nat) || (n =? 32)%nat.

Fixpoint trimLeft (s : string) : string :=
  match s with
  | EmptyString => EmptyString
  | String c s' => if isSpace c then trimLeft s' else s
  end.

Fixpoint trimRight (s : string) : string :=
  match s with
  | EmptyString => EmptyString
  | String c s' =>
      let t := trimRight s' in
      if isSpace c && isEmpty t then EmptyString else String c t
  end.

(** [QString::trimmed()]: whitespace removed from both ends. *)
Definition trimmed (s : string) : string := trimRight (trimLeft s).

(** [QString::split(sep)] with the default [Qt::KeepEmptyParts]: the result
    always has at least one part; it is returned as first part and rest. *)
Fixpoint split_ne (sep : ascii) (s : string) : string * list string :=
  match s with
  | EmptyString => (EmptyString, [])
  | String c s' =>
      let '(hd, tl) := split_ne sep s' in
      if eqc c sep then (EmptyString, hd :: tl) else (String c hd, tl)
  end.

Definition split (sep : ascii) (s : string) : list string :=
  let '(hd, tl) := split_ne sep s in hd :: tl.

(** [QStringList::join(sep)]. *)
Fixpoint join (sep : string) (l : list string) : string :=
  match l with
  | [] => EmptyString
  | [x] => x
  | x :: tl => x +:+ sep +:+ join sep tl
  end.

(** [QString::contains(QChar)]. *)
Fixpoint containsChar (c : ascii) (s : string) : bool :=
  match s with
  | EmptyString => false
  | String d s' => eqc d c || containsChar c s'
  end.

(** [QString::startsWith]. *)
Fixpoint startsWith (s p : string) : bool :=
  match p, s with
  | EmptyString, _ => true
  | String _ _, EmptyString => false
  | String b p', String a s' => eqc a b && startsWith s' p'
  end.

(** [QString::mid(n)]: the text from position [n] to the end. *)
Fixpoint mid (s : string) (n : nat) : string :=
  match n, s with
  | O, _ => s
  | S _, EmptyString => EmptyString
  | S n', String _ s' => mid s' n'
  end.

Definition toLower (c : ascii) : ascii :=
  let n := Ascii.nat_of_ascii c in
  if (65 <=? n)%nat && (n <=? 90)%nat then Ascii.ascii_of_nat (n + 32) else c.

Fixpoint startsWithCI (s p : string) : bool :=
  match p, s with
  | EmptyString, _ => true
  | String _ _, EmptyString => false
  | String b p', String a s' => eqc (toLower a) (toLower b) && startsWithCI s' p'
  end.

(** [QString::contains(str, Qt::CaseInsensitive)]. *)
Fixpoint containsCI (s p : string) : bool :=
  startsWithCI s p ||
  match s with
  | EmptyString => false
  | String _ s' => containsCI s' p
  end.

(** [QString::replace(before, after)] for a one-character [before]. *)
Fixpoint replaceChar (c : ascii) (by_ : string) (s : string) : string :=
  match s with
  | EmptyString => EmptyString
  | String d s' =>
      if eqc d c then by_ +:+ replaceChar c by_ s'
      else String d (replaceChar c by_ s')
  end.

Definition size (s : string) : Z := Z.of_nat (String.length s).

(** [QString::contains(str)], case sensitive. *)
Fixpoint containsStr (s p : string) : bool :=
  startsWith s p ||
  match s with
  | EmptyString => false
  | String _ s' => containsStr s' p
  end.

End QString.

(** ** csvdata.h *)

Record CsvData := mkCsvData {
  headers : list string;
  rows : list (list string);
}.

Definition CsvData_empty : CsvData := mkCsvData [] [].

(** ** QTextStream over the opened file *)

Module QTextStream.

(** The stream state is the text not yet read. *)
Definition atEnd (s : string) : bool := QString.isEmpty s.

(** [readLine()]: the text up to the next line feed, which is consumed
    and not returned, or the whole remaining text when there is none. *)
Fixpoint readLine (s : string) : string * string :=
  match s with
  | EmptyString => (EmptyString, EmptyString)
  | String c s' =>
      if QString.eqc c QString.newline then (EmptyString, s')
      else let '(l, rest) := readLine s' in (String c l, rest)
  end.

End QTextStream.

(** ** csvloader.h / csvloader.cpp *)

Module CsvLoader.

Inductive Signal :=
| progressUpdated (value : Z) (message : string)
| loadingFinished (data : CsvData)
| errorOccurred (message : string).

(** What [QFile] reports about the path given to the loader. [fileSize] is
    [QFile::size()], [contents] the text that the stream delivers, line ends
    being single line feeds. *)
Record QFile := mkQFile {
  file_exists : bool;
  file_opens : bool;
  errorString : string;
  fileSize : Z;
  contents : string;
}.

Definition MAX_ROWS_TO_LOAD : Z := 50000.

(** [isCancelled] is false at construction and [cancel()], its only
    writer, sets it to true: the reads of the flag made by one run see it
    switch at most once.  [cancelAt = Some t] says that the reads numbered
    [t], [t+1], ... (counting from 0) return true; [None] that no read
    does. *)
Definition isCancelled (cancelAt : option nat) (read : nat) : bool :=
  match cancelAt with
  | Some t => (t <=? read)%nat
  | None => false
  end.

(** Narrowing of a [long long] to [int]. *)
Definition static_cast_int (z : Z) : Z :=
  (z + 2147483648) mod 4294967296 - 2147483648.

Definition fields (line : string) : list string :=
  map QString.trimmed (QString.split QString.comma line).

(** Local variables of [run] while rows are read, with the signals emitted
    and the number of reads of [isCancelled] so far. *)
Record RunState := mkRunState {
  st_in : string;
  bytesRead : Z;
  rowsLoaded : Z;
  csvData : CsvData;
  reads : nat;
  emitted : list Signal;
}.

Definition emit (s : Signal) (st : RunState) : RunState :=
  mkRunState (st_in st) (bytesRead st) (rowsLoaded st) (csvData st)
             (reads st) (emitted st ++ [s]).

(** The body of the [while] loop after the cancellation test. *)
Definition readRow (fileSize : Z) (st : RunState) : RunState :=
  let '(line, rest) := QTextStream.readLine (st_in st) in
  let bytesRead' := bytesRead st + (QString.size line + 1) in
  let row := fields line in
  let data' := mkCsvData (headers (csvData st)) (rows (csvData st) ++ [row]) in
  let rowsLoaded' := rowsLoaded st + 1 in
  let st' := mkRunState rest bytesRead' rowsLoaded' data' (reads st) (emitted st) in
  if Z.rem rowsLoaded' 1000 =? 0 then
    let percentage :=
      if 0 <? fileSize then static_cast_int (Z.quot (bytesRead' * 100) fileSize)
      else 0 in
    let percentage := if 100 <? percentage then 100 else percentage in
    emit (progressUpdated percentage (pretty rowsLoaded' +:+ " rows loaded...")) st'
  else st'.

Definition pollCancelled (cancelAt : option nat) (st : RunState) : bool * RunState :=
  (isCancelled cancelAt (reads st),
   mkRunState (st_in st) (bytesRead st) (rowsLoaded st) (csvData st)
              (S (reads st)) (emitted st)).

(** The [while] loop; [None] when [fuel] iterations did not reach its exit. *)
Fixpoint readRows (fuel : nat) (fileSize : Z) (cancelAt : option nat)
         (st : RunState) : option RunState :=
  if negb (QTextStream.atEnd (st_in st)) && (rowsLoaded st <? MAX_ROWS_TO_LOAD) then
    match fuel with
    | O => None
    | S fuel' =>
        let '(c, st1) := pollCancelled cancelAt st in
        if c then Some st1
        else readRows fuel' fileSize cancelAt (readRow fileSize st1)
    end
  else Some st.

Record RunResult := mkRunResult {
  signals : list Signal;
  polls : nat;
}.

Definition finish (st : RunState) : option RunResult :=
  Some (mkRunResult (emitted st) (reads st)).

Definition run (filePath : string) (file : QFile) (cancelAt : option nat)
  : option RunResult :=
  let st0 := mkRunState (contents file) 0 0 CsvData_empty O [] in
  if negb (file_exists file) then
    finish (emit (errorOccurred ("File not found: " +:+ filePath)) st0)
  else if negb (file_opens file) then
    finish (emit (errorOccurred ("Failed to open file: " +:+ filePath +:+
                                 ". Error: " +:+ errorString file)) st0)
  else if negb (QTextStream.atEnd (st_in st0)) then
    let '(headerLine, rest) := QTextStream.readLine (st_in st0) in
    let st1 := mkRunState rest (bytesRead st0 + (QString.size headerLine + 1)) 0
                          (mkCsvData (fields headerLine) []) O [] in
    let st1 := emit (progressUpdated 0 "Header loaded.") st1 in
    let '(c, st2) := pollCancelled cancelAt st1 in
    if c then finish (emit (errorOccurred "Loading cancelled by user.") st2)
    else
      match readRows (String.length rest) (fileSize file) cancelAt st2 with
      | None => None
      | Some st3 =>
          let '(c, st4) := pollCancelled cancelAt st3 in
          if c then
            finish (emit (errorOccurred
                            "Loading cancelled by user during row processing.") st4)
          else if (rowsLoaded st4 =? 0) && bool_decide (headers (csvData st4) = []) then
            finish (emit (errorOccurred "No data loaded from CSV.") st4)
          else if (rowsLoaded st4 =? 0)
                  && negb (bool_decide (headers (csvData st4) = [])) then
            finish (emit (loadingFinished (csvData st4)) st4)
          else
            let st5 := emit (progressUpdated 100
                               ("Finished loading " +:+ pretty (rowsLoaded st4)
                                +:+ " rows.")) st4 in
            finish (emit (loadingFinished (csvData st5)) st5)
      end
  else
    finish (emit (errorOccurred "File is empty or header could not be read.") st0).

End CsvLoader.

(** ** QString::toDouble *)

(** The characters with which a filter text announces a comparison or a
    range. *)
Definition filterMeta (c : ascii) : bool :=
  QString.eqc c ">" || QString.eqc c "<" || QString.eqc c "="
  || QString.eqc c QString.colon.

(** [QString::toDouble(&ok)] is Qt library code: the filter code is written
    against this interface. [toDouble s = Some v] stands for [ok] with value
    [v], [None] for [!ok]. *)
Class ToDouble := {
  toDouble : string -> option Q;
}.

(** What the filter code relies on, and what holds of every number syntax:
    no number is the empty text and none contains a comparison sign or a
    colon. *)
Class ToDoubleLaws (TD : ToDouble) : Prop := {
  toDouble_empty : toDouble EmptyString = None;
  toDouble_no_meta : forall s v c,
    toDouble s = Some v -> filterMeta c = true -> QString.containsChar c s = false;
}.

(** A decimal reader for that interface: optional sign, digits with an
    optional fraction, optional exponent, surrounding whitespace ignored. *)
Module Decimal.

Definition isDigit (c : ascii) : bool :=
  let n := Ascii.nat_of_ascii c in (48 <=? n)%nat && (n <=? 57)%nat.

Definition digitVal (c : ascii) : Z := Z.of_nat (Ascii.nat_of_ascii c) - 48.

(** Reads a run of digits: value so far, count of digits read, rest. *)
Fixpoint digits (acc : Z) (n : nat) (s : string) : Z * nat * string :=
  match s with
  | String c s' =>
      if isDigit c then digits (acc * 10 + digitVal c) (S n) s' else (acc, n, s)
  | EmptyString => (acc, n, s)
  end.

Definition sign (s : string) : bool * string :=
  match s with
  | String c s' =>
      if QString.eqc c "-" then (true, s')
      else if QString.eqc c "+" then (false, s')
      else (false, s)
  | EmptyString => (false, s)
  end.

Definition exponent (s : string) : option Z :=
  match s with
  | EmptyString => Some 0
  | String c s' =>
      if QString.eqc c "e" || QString.eqc c "E" then
        let '(neg, s1) := sign s' in
        let '(e, ne, s2) := digits 0 O s1 in
        if (ne =? 0)%nat then None
        else if QString.isEmpty s2 then Some (if neg then - e else e)
        else None
      else None
  end.

Definition scale (m e : Z) : Q :=
  if 0 <=? e then Qmake (m * 10 ^ e) 1 else Qmake m (Z.to_pos (10 ^ (- e))).

Definition parse (s : string) : option Q :=
  let t := QString.trimmed s in
  let '(neg, t1) := sign t in
  let '(ip, ni, t2) := digits 0 O t1 in
  let '(m, nf, t3) :=
    match t2 with
    | String c r => if QString.eqc c "." then digits ip O r else (ip, O, t2)
    | EmptyString => (ip, O, t2)
    end in
  if (ni + nf =? 0)%nat then None
  else match exponent t3 with
       | Some e => Some (scale (if neg then - m else m) (e - Z.of_nat nf))
       | None => None
       end.

End Decimal.

#[export] Instance decimalToDouble : ToDouble := {| toDouble := Decimal.parse |}.

(** ** QString::toInt *)

(** [QString::toInt(&ok)], like [toDouble] an interface to Qt library code:
    [Some n] stands for [ok] with value [n]. *)
Class ToInt := {
  toInt : string -> option Z;
}.

(** A decimal reader for that interface: optional sign and digits, nothing
    else but surrounding whitespace, within the range of [int]. *)
Definition decimalInt (s : string) : option Z :=
  let t := QString.trimmed s in
  let '(neg, t1) := Decimal.sign t in
  let '(v, n, t2) := Decimal.digits 0 O t1 in
  if (n =? 0)%nat then None
  else if negb (QString.isEmpty t2) then None
  else let z := if neg then - v else v in
       if (-2147483648 <=? z) && (z <=? 2147483647) then Some z else None.

#[export] Instance decimalToInt : ToInt := {| toInt := decimalInt |}.


(** ** Colours *)

Inductive GlobalColor :=
| Qt_black | Qt_red | Qt_darkGray | Qt_gray | Qt_white
| Qt_green | Qt_blue | Qt_cyan | Qt_magenta | Qt_yellow
| Qt_darkBlue | Qt_darkGreen | Qt_darkCyan | Qt_darkMagenta | Qt_darkYellow.

Inductive QColor :=
| QColor_global (g : GlobalColor)
| QColor_darker (c : QColor) (factor : Z)
| QColor_named (name : string).

Coercion QColor_global : GlobalColor >-> QColor.

(** ** mainwindow.h / mainwindow.cpp *)

Module MainWindow.

(** The members of [MainWindow] that the modelled functions read or write.
    [headerFilters] holds, per filter box, the text of the line edit, or
    [None] for a null pointer. *)
Record State := mkState {
  currentCsvData : CsvData;
  currentlyDisplayedData : CsvData;
  headerFilters : list (option string);
  emitterColorMap : gmap Z QColor;
  vibrantColors : list QColor;
  nextColorIndex : Z;
}.

Definition INT_MAX : Z := 2147483647.

Definition defaultColors : list QColor :=
  [ QColor_darker Qt_green 120; QColor_global Qt_blue;
    QColor_darker Qt_cyan 150; QColor_global Qt_magenta;
    QColor_darker Qt_yellow 150; QColor_global Qt_darkBlue;
    QColor_global Qt_darkGreen; QColor_global Qt_darkCyan;
    QColor_global Qt_darkMagenta; QColor_global Qt_darkYellow;
    QColor_global Qt_gray; QColor_named "#FF5733"; QColor_named "#33FFBD";
    QColor_named "#A233FF"; QColor_named "#FFC300" ].

Definition populateDefaultColors (w : State) : State :=
  mkState (currentCsvData w) (currentlyDisplayedData w) (headerFilters w)
          (emitterColorMap w) (vibrantColors w ++ defaultColors)
          (nextColorIndex w).

(** The window as the constructor leaves it. *)
Definition init : State :=
  populateDefaultColors (mkState CsvData_empty CsvData_empty [] ∅ [] 0).

(** [getEmitterColor]. [None] stands for undefined behaviour: an index
    outside [vibrantColors] or the overflow of [nextColorIndex++]. *)
Definition getEmitterColor (emitterId : Z) (w : State) : option (QColor * State) :=
  if emitterId =? -2 then Some (QColor_global Qt_red, w)
  else if emitterId <? 0 then Some (QColor_global Qt_darkGray, w)
  else match emitterColorMap w !! emitterId with
  | Some c => Some (c, w)
  | None =>
      let w1 := match vibrantColors w with
                | [] => populateDefaultColors w
                | _ :: _ => w
                end in
      match vibrantColors w1 with
      | [] => Some (QColor_global Qt_black, w1)
      | _ :: _ =>
          let i := Z.rem (nextColorIndex w1) (Z.of_nat (length (vibrantColors w1))) in
          if i <? 0 then None
          else match vibrantColors w1 !! Z.to_nat i with
          | None => None
          | Some newColor =>
              if nextColorIndex w1 =? INT_MAX then None
              else Some (newColor,
                         mkState (currentCsvData w1) (currentlyDisplayedData w1)
                                 (headerFilters w1)
                                 (<[emitterId := newColor]> (emitterColorMap w1))
                                 (vibrantColors w1) (nextColorIndex w1 + 1))
          end
      end
  end.

(** A sequence of colour requests, each on the state the previous left. *)
Fixpoint getEmitterColors (ids : list Z) (w : State) : option (list QColor * State) :=
  match ids with
  | [] => Some ([], w)
  | id :: ids' =>
      match getEmitterColor id w with
      | None => None
      | Some (c, w1) =>
          match getEmitterColors ids' w1 with
          | None => None
          | Some (cs, w2) => Some (c :: cs, w2)
          end
      end
  end.

Section Filters.
Context `{ToDouble}.

(** Lines 632-668: does the cell satisfy one non-empty filter text. *)
Definition filterMatches (cellValue filterText : string) : bool :=
  let isNumericComparison : option bool :=
    if QString.startsWith filterText ">" || QString.startsWith filterText "<"
       || QString.startsWith filterText "=" then
      let numPart :=
        QString.mid filterText
          (if QString.startsWith filterText "==" || QString.startsWith filterText ">="
              || QString.startsWith filterText "<=" then 2 else 1) in
      match toDouble cellValue, toDouble numPart with
      | Some cellNum, Some filterNum =>
          Some (if QString.startsWith filterText ">=" then Qle_bool filterNum cellNum
                else if QString.startsWith filterText "<=" then Qle_bool cellNum filterNum
                else if QString.startsWith filterText ">" then
                       negb (Qle_bool cellNum filterNum)
                else if QString.startsWith filterText "<" then
                       negb (Qle_bool filterNum cellNum)
                else if QString.startsWith filterText "==" then Qeq_bool cellNum filterNum
                else if QString.startsWith filterText "=" then Qeq_bool cellNum filterNum
                else false)
      | _, _ => None
      end
    else if QString.containsChar QString.colon filterText then
      match QString.split QString.colon filterText with
      | [minPart; maxPart] =>
          match toDouble cellValue, toDouble minPart, toDouble maxPart with
          | Some cellNum, Some minVal, Some maxVal =>
              Some (Qle_bool minVal cellNum && Qle_bool cellNum maxVal)
          | _, _, _ => None
          end
      | _ => None
      end
    else None in
  match isNumericComparison with
  | Some currentFilterMatches => currentFilterMatches
  | None => QString.containsCI cellValue filterText
  end.

(** Lines 612-620. *)
Definition activeFilters (w : State) : list string :=
  map (fun edit => match edit with
                   | Some text => QString.trimmed text
                   | None => EmptyString
                   end) (headerFilters w).

Definition anyFilterActive (w : State) : bool :=
  existsb (fun f => negb (QString.isEmpty f)) (activeFilters w).

(** The inner [for] loop over the column indices [js], leaving at the
    first filter that does not match. *)
Fixpoint matchesFrom (filters : list string) (row : list string) (js : list nat)
  : bool :=
  match js with
  | [] => true
  | j :: js' =>
      let filterText := nth j filters EmptyString in
      if negb (QString.isEmpty filterText) then
        if filterMatches (nth j row EmptyString) filterText
        then matchesFrom filters row js'
        else false
      else matchesFrom filters row js'
  end.

Definition matchesAllFilters (w : State) (row : list string) : bool :=
  if (length row <? length (headerFilters w))%nat then false
  else matchesFrom (activeFilters w) row
         (seq 0 (Nat.min (length (headerFilters w)) (length row))).

Definition setDisplayed (d : CsvData) (w : State) : State :=
  mkState (currentCsvData w) d (headerFilters w) (emitterColorMap w)
          (vibrantColors w) (nextColorIndex w).

(** [applyTableFilters] up to line 682: the new [currentlyDisplayedData]. *)
Definition applyTableFilters (w : State) : State :=
  let tempFilteredData :=
    mkCsvData (headers (currentCsvData w))
              (List.filter (matchesAllFilters w) (rows (currentCsvData w))) in
  if negb (anyFilterActive w) then setDisplayed (currentCsvData w) w
  else setDisplayed tempFilteredData w.

End Filters.

(** Lines 862-866: a field as it is written to the export file. *)
Definition exportField (field : string) : string :=
  if QString.containsChar QString.comma field
     || QString.containsChar QString.dquote field
     || QString.containsChar QString.newline field
  then
    let q := String QString.dquote EmptyString in
    q +:+ QString.replaceChar QString.dquote (q +:+ q) field +:+ q
  else field.

Inductive ExportOutcome :=
| NoDataToExport
| NoFileChosen
| CouldNotOpen
| Exported (filePath : string) (text : string).

Definition nl : string := String QString.newline EmptyString.

(** [exportFilteredData]; [filePath] is what the save dialog returned and
    [opens] whether that file could be opened for writing. *)
Definition exportFilteredData (w : State) (filePath : string) (opens : bool)
  : ExportOutcome :=
  match rows (currentlyDisplayedData w) with
  | [] => NoDataToExport
  | _ :: _ =>
      if QString.isEmpty filePath then NoFileChosen
      else if negb opens then CouldNotOpen
      else
        let headerLine := QString.join "," (headers (currentlyDisplayedData w)) +:+ nl in
        let rowLines :=
          map (fun row => QString.join "," (map exportField row) +:+ nl)
              (rows (currentlyDisplayedData w)) in
        Exported filePath (headerLine +:+ fold_right String.append EmptyString rowLines)
  end.

(** [updateTableDisplay], lines 555-595, as far as it writes members of the
    window: the old filter boxes are deleted and one new, empty box is made
    per header, of the loaded table when the displayed one has neither
    headers nor rows, of the displayed table otherwise. (The cells it puts
    into the table model are not part of [State].) *)
Definition updateTableDisplay (w : State) : State :=
  let dataToDisplay := currentlyDisplayedData w in
  let boxes :=
    if bool_decide (headers dataToDisplay = []) && bool_decide (rows dataToDisplay = [])
       && negb (bool_decide (headers (currentCsvData w) = []))
    then length (headers (currentCsvData w))
    else length (headers dataToDisplay) in
  mkState (currentCsvData w) (currentlyDisplayedData w)
          (repeat (Some EmptyString) boxes)
          (emitterColorMap w) (vibrantColors w) (nextColorIndex w).

(** [clearTableFilters], lines 692-696. *)
Definition clearTableFilters (w : State) : State :=
  let cleared := map (fun edit => match edit with
                                  | Some _ => Some EmptyString
                                  | None => None
                                  end) (headerFilters w) in
  updateTableDisplay
    (mkState (currentCsvData w) (currentCsvData w) cleared
             (emitterColorMap w) (vibrantColors w) (nextColorIndex w)).

(** [applyTableFilters], lines 606-684: the filtering followed by the
    rebuilding of the table. The rest of the function, lines 685-687,
    writes none of [currentCsvData], [currentlyDisplayedData] and
    [headerFilters]. *)
Definition applyTableFiltersAndRedisplay `{ToDouble} (w : State) : State :=
  updateTableDisplay (applyTableFilters w).

(** [handleCsvLoadingError], lines 535-537. *)
Definition handleCsvLoadingError (w : State) : State :=
  clearTableFilters
    (mkState CsvData_empty CsvData_empty (headerFilters w)
             (emitterColorMap w) (vibrantColors w) (nextColorIndex w)).

(** The three entries that [loadEmitterReference] falls back to, assigned
    in the order of lines 278-280. *)
Definition defaultReference : gmap Z string :=
  <[1 := "Alpha Emitter (default)"]>
    (<[0 := "Unknown Emitter (default)"]>
       (<[-1 := "Noise Source (default)"]> ∅)).

(** Lines 286-293: what one line of the reference file does to the map. *)
Definition referenceLine `{ToInt} (emitterReference : gmap Z string) (line : string)
  : gmap Z string :=
  match QString.split "=" line with
  | [part0; part1] =>
      let name := QString.trimmed part0 in
      match toInt (QString.trimmed part1) with
      | Some id => <[id := name]> emitterReference
      | None => emitterReference
      end
  | _ => emitterReference
  end.

(** The [while] loop of lines 284-294; [None] when [fuel] iterations did not
    reach the end of the text. *)
Fixpoint readReference `{ToInt} (fuel : nat) (text : string)
         (emitterReference : gmap Z string) : option (gmap Z string) :=
  if QTextStream.atEnd text then Some emitterReference
  else match fuel with
       | O => None
       | S fuel' =>
           let '(line, rest) := QTextStream.readLine text in
           readReference fuel' rest (referenceLine emitterReference line)
       end.

(** [loadEmitterReference]: the new value of [emitterReference]. [file] is
    the text of the reference file, or [None] when no file could be opened. *)
Definition loadEmitterReference `{ToInt} (file : option string)
  : option (gmap Z string) :=
  match file with
  | None => Some defaultReference
  | Some text =>
      match readReference (String.length text) text ∅ with
      | None => None
      | Some emitterReference =>
          if bool_decide (emitterReference = ∅) then Some defaultReference
          else Some emitterReference
      end
  end.

(** [getEmitterLabel]. *)
Definition getEmitterLabel (emitterReference : gmap Z string) (emitterId : Z) : string :=
  if emitterId =? -2 then "Invalid Emitter ID"
  else default ("Emitter " +:+ pretty emitterId) (emitterReference !! emitterId).

(** Lines 493-502 of [handleCsvLoadingFinished]: the emitter column, the
    first header, from index [i] on, that passes the test. *)
Fixpoint findEmitterColumn (headersQt : list string) (i : nat) : option (string * nat) :=
  match headersQt with
  | [] => None
  | header :: rest =>
      if QString.containsCI header "emitter" || QString.containsStr header "EmitterID"
      then Some (header, i)
      else findEmitterColumn rest (S i)
  end.

(** Lines 736-742 of [updatePlot]: the index of a column name among the
    headers; the loop has no [break], a later header with the name
    replaces an earlier one. *)
Fixpoint columnIndex (headers : list string) (name : string) (i : nat)
         (found : option nat) : option nat :=
  match headers with
  | [] => found
  | header :: rest =>
      columnIndex rest name (S i) (if String.eqb header name then Some i else found)
  end.

End MainWindow.

(** ** Qt geometry *)

Record QPointF := mkQPointF { pt_x : Q; pt_y : Q }.

(** [QRectF(x, y, width, height)]: [left()] is [x], [top()] is [y]. *)
Record QRectF := mkQRectF {
  rectf_left : Q;
  rectf_top : Q;
  rectf_width : Q;
  rectf_height : Q;
}.

(** [QRect(x, y, width, height)] on integers. [right()] and [bottom()] are
    [x + width - 1] and [y + height - 1]. *)
Record QRect := mkQRect {
  rect_left : Z;
  rect_top : Z;
  rect_width : Z;
  rect_height : Z;
}.

Definition rect_right (r : QRect) : Z := rect_left r + rect_width r - 1.
Definition rect_bottom (r : QRect) : Z := rect_top r + rect_height r - 1.
Definition rect_isValid (r : QRect) : bool :=
  (rect_left r <=? rect_right r) && (rect_top r <=? rect_bottom r).

(** ** simpleplotwidget.h / simpleplotwidget.cpp *)

Module SimplePlotWidget.

Local Open Scope Q_scope.

Record State := mkState {
  plotData : list QPointF;
  pointEmitterIds : list Z;
  currentColorScheme : gmap Z QColor;
  xLabelText : string;
  yLabelText : string;
  titleText : string;
  dataBoundingRect : QRectF;
  width : Z;
  height : Z;
}.

(** The widget after its constructor, with the size the layout gave it. *)
Definition init (w h : Z) : State :=
  mkState [] [] ∅ "X-Axis" "Y-Axis" "Plot" (mkQRectF 0 0 1 1) w h.

Definition Qltb (a b : Q) : bool := negb (Qle_bool b a).

(** The four running extremes of the loop of [calculateDataBoundingRect]. *)
Record Extremes := mkExtremes { minX : Q; maxX : Q; minY : Q; maxY : Q }.

Definition widen (e : Extremes) (point : QPointF) : Extremes :=
  let minX := if Qltb (pt_x point) (minX e) then pt_x point else minX e in
  let maxX := if Qltb (maxX e) (pt_x point) then pt_x point else maxX e in
  let minY := if Qltb (pt_y point) (minY e) then pt_y point else minY e in
  let maxY := if Qltb (maxY e) (pt_y point) then pt_y point else maxY e in
  mkExtremes minX maxX minY maxY.

Definition calculateDataBoundingRect (plotData : list QPointF) : QRectF :=
  match plotData with
  | [] => mkQRectF 0 0 1 1
  | p0 :: _ =>
      let e := fold_left widen plotData
                 (mkExtremes (pt_x p0) (pt_x p0) (pt_y p0) (pt_y p0)) in
      let '(minX, maxX) :=
        if Qeq_bool (minX e) (maxX e)
        then (minX e - (1 # 2), maxX e + (1 # 2)) else (minX e, maxX e) in
      let '(minY, maxY) :=
        if Qeq_bool (minY e) (maxY e)
        then (minY e - (1 # 2), maxY e + (1 # 2)) else (minY e, maxY e) in
      let width := maxX - minX in
      let height := maxY - minY in
      let width := if Qeq_bool width 0 then 1 else width in
      let height := if Qeq_bool height 0 then 1 else height in
      mkQRectF minX minY width height
  end.

Definition setData (data : list QPointF) (emitterIds : list Z)
           (colorMap : gmap Z QColor) (xLabel yLabel title : string)
           (w : State) : State :=
  mkState data emitterIds colorMap xLabel yLabel title
          (calculateDataBoundingRect data) (width w) (height w).

Inductive PaintOp :=
| fillRect (r : QRect) (c : QColor)
| drawFrame (r : QRect)
| drawText (text : string)
| drawSquare (r : QRectF) (brush : QColor).

Definition marginTop : Z := 30.
Definition marginBottom : Z := 50.
Definition marginLeft : Z := 60.
Definition marginRight : Z := 20.

Definition plotRect (w : State) : QRect :=
  mkQRect marginLeft marginTop
          (width w - marginLeft - marginRight)
          (height w - marginTop - marginBottom).

(** A division of [double]s, [None] when the divisor is zero. *)
Definition divide (a b : Q) : option Q :=
  if Qeq_bool b 0 then None else Some (a / b).

(** Lines 135-136: the transformed coordinates [(pointX, pointY)]. *)
Definition transform (w : State) (sx sy : Q) (dataPoint : QPointF) : Q * Q :=
  let pointX := inject_Z (rect_left (plotRect w))
                + (pt_x dataPoint - rectf_left (dataBoundingRect w)) * sx in
  let pointY := inject_Z (rect_bottom (plotRect w))
                - (pt_y dataPoint - rectf_top (dataBoundingRect w)) * sy in
  (pointX, pointY).

(** Lines 128-139: the square drawn for the point with index [i]. *)
Definition pointSquare (w : State) (sx sy : Q) (i : nat) (dataPoint : QPointF)
  : PaintOp :=
  let emitterId := default (-1)%Z (pointEmitterIds w !! i) in
  let pointColor := default (QColor_global Qt_gray) (currentColorScheme w !! emitterId) in
  let '(pointX, pointY) := transform w sx sy dataPoint in
  drawSquare (mkQRectF (pointX - 2) (pointY - 2) 4 4) pointColor.

(** Lines 90-115: the frame, the title and the two axis labels. *)
Definition frameOps (w : State) : list PaintOp :=
  let r := plotRect w in
  [fillRect r Qt_white; drawFrame r; drawText (titleText w);
   drawText (xLabelText w); drawText (yLabelText w)].

(** [paintEvent]: the drawing operations in order; [None] if a scale
    factor were computed with a zero divisor. *)
Definition paintEvent (w : State) : option (list PaintOp) :=
  let r := plotRect w in
  if negb (rect_isValid r) || (rect_width r <? 1)%Z || (rect_height r <? 1)%Z
  then Some []
  else
    let frame := frameOps w in
    match plotData w with
    | [] => Some frame
    | _ :: _ =>
        if Qle_bool (rectf_width (dataBoundingRect w)) 0
           || Qle_bool (rectf_height (dataBoundingRect w)) 0
        then Some frame
        else
          match divide (inject_Z (rect_width r)) (rectf_width (dataBoundingRect w)),
                divide (inject_Z (rect_height r)) (rectf_height (dataBoundingRect w))
          with
          | Some sx, Some sy =>
              Some (frame ++ imap (pointSquare w sx sy) (plotData w))
          | _, _ => None
          end
    end.

(** The centre of the plot area, as a point of the plane. *)
Definition plotCentreX (w : State) : Q :=
  inject_Z (rect_left (plotRect w)) + inject_Z (rect_width (plotRect w)) / 2.
Definition plotCentreY (w : State) : Q :=
  inject_Z (rect_top (plotRect w)) + inject_Z (rect_height (plotRect w)) / 2.

End SimplePlotWidget.

(** ** mainwindow.cpp, continued: updatePlot *)

Module MainWindowPlot.

(** What [updatePlot] hands to the plot widget. *)
Record PlotInput := mkPlotInput {
  points : list QPointF;
  emitterIdsForPlot : list Z;
  plotXLabel : string;
  plotYLabel : string;
  plotTitle : string;
}.

(** Lines 763-781: the point and the emitter id taken from one row, if
    any. *)
Definition rowPoint `{ToDouble} `{ToInt} (xColIdx yColIdx : nat)
           (emitterColIdx : option nat) (row : list string) : option (QPointF * Z) :=
  if (xColIdx <? length row)%nat && (yColIdx <? length row)%nat then
    let emitterId :=
      match emitterColIdx with
      | Some e =>
          if (e <? length row)%nat then
            match toInt (nth e row EmptyString) with
            | Some id => id
            | None => -2
            end
          else -1
      | None => -1
      end in
    match toDouble (nth xColIdx row EmptyString), toDouble (nth yColIdx row EmptyString) with
    | Some xVal, Some yVal => Some (mkQPointF xVal yVal, emitterId)
    | _, _ => None
    end
  else None.

(** [updatePlot] in the 2D view, lines 720-789: what is passed to
    [SimplePlotWidget::setData], from the displayed table, the texts of the
    two axis selectors and the emitter column. *)
Definition updatePlot `{ToDouble} `{ToInt} (displayed : CsvData)
           (xColName yColName currentEmitterColumn : string) : PlotInput :=
  if QString.isEmpty xColName || QString.isEmpty yColName
     || bool_decide (rows displayed = [])
  then mkPlotInput [] [] "X-Axis" "Y-Axis" "Plot"
  else
    match MainWindow.columnIndex (headers displayed) xColName O None,
          MainWindow.columnIndex (headers displayed) yColName O None with
    | Some xColIdx, Some yColIdx =>
        let emitterColIdx := MainWindow.columnIndex (headers displayed) currentEmitterColumn O None in
        let taken := omap (rowPoint xColIdx yColIdx emitterColIdx) (rows displayed) in
        mkPlotInput (map fst taken) (map snd taken) xColName yColName
                    ("2D Plot: " +:+ yColName +:+ " vs " +:+ xColName)
    | _, _ =>
        mkPlotInput [] []
                    (if QString.isEmpty xColName then "X-Axis (Error)" else xColName)
                    (if QString.isEmpty yColName then "Y-Axis (Error)" else yColName)
                    "Invalid Columns"
    end.

End MainWindowPlot.

(** ** Notions used to state the properties *)

(** The lines of a text: the pieces between line feeds, a final piece that
    is not ended by a line feed counting as a line when it is not empty. *)
Fixpoint textLines (s : string) : list string :=
  match s with
  | EmptyString => []
  | String c s' =>
      if QString.eqc c QString.newline then EmptyString :: textLines s'
      else match textLines s' with
           | [] => [String c EmptyString]
           | l :: ls => String c l :: ls
           end
  end.

(** A text of [n] empty lines. *)
Fixpoint emptyLines (n : nat) : string :=
  match n with
  | O => EmptyString
  | S n' => String QString.newline (emptyLines n')
  end.

(** The terminal signals of the loader are the two that end a load. *)
Definition isTerminal (s : CsvLoader.Signal) : bool :=
  match s with
  | CsvLoader.progressUpdated _ _ => false
  | CsvLoader.loadingFinished _ => true
  | CsvLoader.errorOccurred _ => true
  end.

Definition isSuccess (s : CsvLoader.Signal) : bool :=
  match s with
  | CsvLoader.loadingFinished _ => true
  | _ => false
  end.

Definition cancelledMessage (m : string) : Prop :=
  m = "Loading cancelled by user."
  \/ m = "Loading cancelled by user during row processing.".

(** A character that no part of a number may contain. *)
Definition foreign (x : ascii) : Prop :=
  QString.isSpace x = false /\ Decimal.isDigit x = false /\ x <> "-"%char /\ x <> "+"%char
  /\ x <> "."%char /\ x <> "e"%char /\ x <> "E"%char.

(** A row satisfies the filters when every non-empty filter text has a cell
    in its column and that cell matches it. *)
Definition satisfiesFilters `{ToDouble} (filters : list string) (row : list string)
  : Prop :=
  forall j f, filters !! j = Some f -> f <> EmptyString ->
    exists cell, row !! j = Some cell /\ MainWindow.filterMatches cell f = true.

(** What a range filter with the ends [mn] and [mx] decides for one cell. *)
Definition inRangeOrContains `{ToDouble} (mn mx : Q) (filterText cell : string) : bool :=
  match toDouble cell with
  | Some v => Qle_bool mn v && Qle_bool v mx
  | None => QString.containsCI cell filterText
  end.

(** The test the inner loop makes at column [j]. *)
Definition columnOk `{ToDouble} (filters row : list string) (j : nat) : bool :=
  QString.isEmpty (nth j filters EmptyString)
  || MainWindow.filterMatches (nth j row EmptyString) (nth j filters EmptyString).

(** The window after [data] was loaded and [texts] were typed into the
    filter boxes, one box per column. *)
Definition windowWith (data : CsvData) (texts : list string) : MainWindow.State :=
  MainWindow.mkState data data (map Some texts) ∅ MainWindow.defaultColors 0.

(** The palette a request works with: [vibrantColors], refilled with the
    default colours when it is empty. *)
Definition paletteOf (w : MainWindow.State) : list QColor :=
  match MainWindow.vibrantColors w with
  | [] => MainWindow.defaultColors
  | _ :: _ => MainWindow.vibrantColors w
  end.

(** The colour of ids below zero. *)
Definition fixedColor (id : Z) : QColor :=
  if id =? -2 then QColor_global Qt_red else QColor_global Qt_darkGray.

(** What one request for the colour of [id] in the window [w] is to return
    ([c]) and leave behind ([w']): ids below zero have their fixed colour
    and change nothing; an id with a colour in the map gets that colour and
    changes nothing; any other id gets the palette colour at
    [nextColorIndex mod paletteSize], which is recorded for the id while
    [nextColorIndex] advances by one. *)
Definition requestSpec (w : MainWindow.State) (id : Z) (c : QColor)
           (w' : MainWindow.State) : Prop :=
  if id <? 0 then c = fixedColor id /\ w' = w
  else match MainWindow.emitterColorMap w !! id with
       | Some c0 => c = c0 /\ w' = w
       | None =>
           paletteOf w !! Z.to_nat (MainWindow.nextColorIndex w
                                    mod Z.of_nat (length (paletteOf w))) = Some c
           /\ w' = MainWindow.mkState
                     (MainWindow.currentCsvData w) (MainWindow.currentlyDisplayedData w)
                     (MainWindow.headerFilters w)
                     (<[id := c]> (MainWindow.emitterColorMap w))
                     (paletteOf w) (MainWindow.nextColorIndex w + 1)
       end.

(** A double quote as a text. *)
Definition dq : string := String QString.dquote EmptyString.

(** A field that needs quoting: the word [name] between double quotes. *)
Definition quotedName : string := dq +:+ "name" +:+ dq.

(** The running extremes are in order. *)
Definition ordered (e : SimplePlotWidget.Extremes) : Prop :=
  (SimplePlotWidget.minX e <= SimplePlotWidget.maxX e
   /\ SimplePlotWidget.minY e <= SimplePlotWidget.maxY e)%Q.

(** The box [calculateDataBoundingRect] makes of the extremes [e] it found
    for a non-empty point set (lines 54-68). *)
Definition boxOf (e : SimplePlotWidget.Extremes) : QRectF :=
  let '(minX, maxX) :=
    if Qeq_bool (SimplePlotWidget.minX e) (SimplePlotWidget.maxX e)
    then (SimplePlotWidget.minX e - (1 # 2), SimplePlotWidget.maxX e + (1 # 2))%Q
    else (SimplePlotWidget.minX e, SimplePlotWidget.maxX e) in
  let '(minY, maxY) :=
    if Qeq_bool (SimplePlotWidget.minY e) (SimplePlotWidget.maxY e)
    then (SimplePlotWidget.minY e - (1 # 2), SimplePlotWidget.maxY e + (1 # 2))%Q
    else (SimplePlotWidget.minY e, SimplePlotWidget.maxY e) in
  let width := (maxX - minX)%Q in
  let height := (maxY - minY)%Q in
  let width := if Qeq_bool width 0 then 1%Q else width in
  let height := if Qeq_bool height 0 then 1%Q else height in
  mkQRectF minX minY width height.

(** ** Further notions, for the properties beyond the claims *)

(** A cell as the loader leaves it: trimming changes nothing and it holds
    neither a comma nor a line feed. *)
Definition cleanCell (s : string) : Prop :=
  QString.trimmed s = s
  /\ QString.containsChar QString.comma s = false
  /\ QString.containsChar QString.newline s = false.

(** A row as the loader leaves it: at least one cell, all of them clean. *)
Definition cleanRow (row : list string) : Prop :=
  row <> [] /\ Forall cleanCell row.

(** The state of [run] when the header line [h] has been read, its progress
    report emitted and the first read of the flag has returned false. *)
Definition afterHeader (h rest : string) : CsvLoader.RunState :=
  CsvLoader.mkRunState rest (0 + (QString.size h + 1)) 0
    (mkCsvData (CsvLoader.fields h) []) 1%nat
    [CsvLoader.progressUpdated 0 "Header loaded."].

(** The percentages of the progress reports among some signals. *)
Definition progressValues (l : list CsvLoader.Signal) : list Z :=
  omap (fun s => match s with
                 | CsvLoader.progressUpdated v _ => Some v
                 | _ => None
                 end) l.

(** A cell that the export writes as it is and the loader reads back as it
    is: trimming changes nothing and it holds no comma, double quote or line
    feed. *)
Definition plainCell (s : string) : Prop :=
  QString.trimmed s = s
  /\ QString.containsChar QString.comma s = false
  /\ QString.containsChar QString.dquote s = false
  /\ QString.containsChar QString.newline s = false.

(** The number of occurrences of a character in a text. *)
Fixpoint countChar (c : ascii) (s : string) : nat :=
  match s with
  | EmptyString => O
  | String d s' => (if QString.eqc d c then 1 else 0) + countChar c s'
  end.

(** The commas in the cells of a row. *)
Definition commasIn (row : list string) : nat :=
  fold_right (fun cell n => (countChar QString.comma cell + n)%nat) O row.

(** What the loop keeps about the bytes counted and the percentages
    reported, for a text of [L] characters. *)
Definition bytesInv (L fs : Z) (st : CsvLoader.RunState) : Prop :=
  0 <= CsvLoader.bytesRead st
  /\ CsvLoader.bytesRead st + Z.of_nat (String.length (CsvLoader.st_in st))
     <= L + (if QString.isEmpty (CsvLoader.st_in st) then 1 else 0)
  /\ Forall (fun v => v <= 100) (progressValues (CsvLoader.emitted st))
  /\ (L <= fs -> Forall (fun v => 0 <= v) (progressValues (CsvLoader.emitted st))).

(** What the loop keeps about the rows counted and the reports made. *)
Definition countInv (st : CsvLoader.RunState) : Prop :=
  CsvLoader.rowsLoaded st = Z.of_nat (length (rows (CsvLoader.csvData st)))
  /\ Z.of_nat (length (progressValues (CsvLoader.emitted st)))
     = 1 + CsvLoader.rowsLoaded st / 1000.

(** The entry that a line of the reference file defines, if any: the id
    after the one [=] sign and the name before it. *)
Definition lineEntry `{ToInt} (line : string) : option (Z * string) :=
  match QString.split "=" line with
  | [part0; part1] =>
      match toInt (QString.trimmed part1) with
      | Some id => Some (id, QString.trimmed part0)
      | None => None
      end
  | _ => None
  end.

(** * Properties of the CSV loader *)

Section LoaderFacts.
Import CsvLoader.

Lemma readLine_shrinks s :
  (String.length (QTextStream.readLine s).2 <= pred (String.length s))%nat.
Proof.
  induction s as [|c s IH]; simpl; [lia|].
  destruct (QString.eqc c QString.newline); simpl; [lia|].
  destruct (QTextStream.readLine s) as [l r]; simpl in *. lia.
Qed.

Lemma textLines_readLine s :
  s <> EmptyString ->
  textLines s = (QTextStream.readLine s).1 :: textLines (QTextStream.readLine s).2.
Proof.
  induction s as [|c s IH]; [congruence|]. intros _. simpl.
  destruct (QString.eqc c QString.newline); [reflexivity|].
  destruct s as [|d s].
  - reflexivity.
  - rewrite IH by discriminate.
    destruct (QTextStream.readLine (String d s)) as [l r]. reflexivity.
Qed.

Lemma atEnd_false s : QTextStream.atEnd s = false <-> s <> EmptyString.
Proof. destruct s; simpl; split; congruence. Qed.

Lemma fields_nonempty line : fields line <> [].
Proof.
  unfold fields, QString.split.
  destruct (QString.split_ne QString.comma line). discriminate.
Qed.

(** What one execution of the loop body does to each local variable. *)
Lemma readRow_spec fs st :
  let lr := QTextStream.readLine (st_in st) in
  let st' := readRow fs st in
  st_in st' = lr.2 /\
  rowsLoaded st' = rowsLoaded st + 1 /\
  headers (csvData st') = headers (csvData st) /\
  rows (csvData st') = rows (csvData st) ++ [fields lr.1] /\
  reads st' = reads st /\
  exists ps, emitted st' = emitted st ++ ps /\ Forall (fun s => isTerminal s = false) ps.
Proof.
  unfold readRow. destruct (QTextStream.readLine (st_in st)) as [line rest].
  simpl. destruct (Z.rem (rowsLoaded st + 1) 1000 =? 0); simpl.
  - repeat split; auto. eexists; split; [reflexivity|]. repeat constructor.
  - repeat split; auto. exists []. rewrite app_nil_r. split; constructor.
Qed.

Lemma isCancelled_mono c k k' :
  (k <= k')%nat -> isCancelled c k = true -> isCancelled c k' = true.
Proof.
  destruct c as [t|]; simpl; [|congruence].
  rewrite !Nat.leb_le. lia.
Qed.

(** With enough fuel the loop reaches its exit; it keeps the headers and
    emits only progress signals. *)
Lemma readRows_exit fuel fs c st :
  (String.length (st_in st) <= fuel)%nat ->
  exists st', readRows fuel fs c st = Some st' /\
    headers (csvData st') = headers (csvData st) /\
    (reads st <= reads st')%nat /\
    (exists ps, emitted st' = emitted st ++ ps
                /\ Forall (fun s => isTerminal s = false) ps).
Proof.
  revert st. induction fuel as [|fuel IH]; intros st Hlen.
  - destruct st as [i b r d k e]; simpl in *.
    destruct i; simpl in *; [|lia].
    eexists; split; [reflexivity|]. simpl. repeat split; auto.
    exists []. rewrite app_nil_r. auto.
  - simpl.
    destruct (negb (QTextStream.atEnd (st_in st)) && (rowsLoaded st <? MAX_ROWS_TO_LOAD))
      eqn:Hc.
    + destruct (isCancelled c (reads st)).
      * eexists; split; [reflexivity|]. simpl. repeat split; auto.
        exists []. rewrite app_nil_r. auto.
      * set (st1 := mkRunState _ _ _ _ (S (reads st)) _).
        destruct (readRow_spec fs st1) as (Hin & _ & Hh & _ & Hr & ps & He & Hps).
        destruct (IH (readRow fs st1)) as (st' & Hrun & Hh' & Hr' & ps' & He' & Hps').
        { rewrite Hin. subst st1. simpl.
          pose proof (readLine_shrinks (st_in st)).
          apply andb_true_iff in Hc as [Hc _].
          apply negb_true_iff, atEnd_false in Hc.
          destruct (st_in st); simpl in *; [congruence|lia]. }
        exists st'. split; [exact Hrun|]. repeat split.
        -- rewrite Hh', Hh. reflexivity.
        -- rewrite Hr in Hr'. subst st1; simpl in *. lia.
        -- exists (ps ++ ps'). rewrite He', He. subst st1; simpl.
           rewrite app_assoc. split; [reflexivity|]. apply Forall_app; auto.
    + eexists; split; [reflexivity|]. repeat split; auto.
      exists []. rewrite app_nil_r. auto.
Qed.

End LoaderFacts.

Section LoaderUncancelled.
Import CsvLoader.

Lemma textLines_nil s : textLines s = [] -> s = EmptyString.
Proof.
  destruct s as [|c s]; [reflexivity|]. simpl.
  destruct (QString.eqc c QString.newline); [discriminate|].
  destruct (textLines s); discriminate.
Qed.

(** When no read of the flag returns true the loop appends one row per line
    of the remaining text, in order, until the text or the cap ends it. *)
Lemma readRows_uncancelled fuel fs st :
  (String.length (st_in st) <= fuel)%nat ->
  0 <= rowsLoaded st <= MAX_ROWS_TO_LOAD ->
  exists st', readRows fuel fs None st = Some st' /\
    let taken := take (Z.to_nat (MAX_ROWS_TO_LOAD - rowsLoaded st))
                      (textLines (st_in st)) in
    rows (csvData st') = rows (csvData st) ++ map fields taken /\
    rowsLoaded st' = rowsLoaded st + Z.of_nat (length taken).
Proof.
  revert st. induction fuel as [|fuel IH]; intros st Hlen Hrl.
  - destruct st as [i b r d k e]; simpl in *.
    destruct i; simpl in *; [|lia].
    eexists; split; [reflexivity|]. simpl. rewrite take_nil. simpl.
    rewrite app_nil_r. split; [reflexivity|lia].
  - simpl.
    destruct (negb (QTextStream.atEnd (st_in st)) && (rowsLoaded st <? MAX_ROWS_TO_LOAD))
      eqn:Hc.
    + apply andb_true_iff in Hc as [Hne Hlt].
      apply negb_true_iff, atEnd_false in Hne. apply Z.ltb_lt in Hlt.
      set (st1 := mkRunState _ _ _ _ (S (reads st)) _).
      destruct (readRow_spec fs st1) as (Hin & Hn & _ & Hrows & _).
      destruct (IH (readRow fs st1)) as (st' & Hrun & Hr' & Hn').
      { rewrite Hin. subst st1. simpl.
        pose proof (readLine_shrinks (st_in st)).
        destruct (st_in st); simpl in *; [congruence|lia]. }
      { rewrite Hn. subst st1. simpl. lia. }
      exists st'. split; [exact Hrun|].
      rewrite Hn, Hin, Hrows in *. subst st1. simpl in *.
      rewrite (textLines_readLine (st_in st)) by assumption.
      replace (Z.to_nat (MAX_ROWS_TO_LOAD - rowsLoaded st))
        with (S (Z.to_nat (MAX_ROWS_TO_LOAD - (rowsLoaded st + 1)))) by lia.
      rewrite firstn_cons. simpl.
      rewrite Hr', Hn', <- app_assoc. simpl. split; [reflexivity|lia].
    + eexists; split; [reflexivity|].
      apply andb_false_iff in Hc as [Hc|Hc].
      * apply negb_false_iff in Hc. destruct (st_in st); [|discriminate].
        simpl. rewrite take_nil. simpl. rewrite app_nil_r. split; [reflexivity|lia].
      * apply Z.ltb_ge in Hc.
        replace (MAX_ROWS_TO_LOAD - rowsLoaded st) with 0 by lia.
        simpl. rewrite app_nil_r. split; [reflexivity|lia].
Qed.

(** An uncancelled load of a readable file whose text has the header line
    [h] followed by the lines [ls]: the signals are progress reports and, at
    the end, one success carrying the headers of [h] and a row for each of
    the first [MAX_ROWS_TO_LOAD] lines of [ls]. *)
Lemma run_uncancelled path f h ls :
  file_exists f = true -> file_opens f = true ->
  textLines (contents f) = h :: ls ->
  exists pre n,
    run path f None =
      Some (mkRunResult
              (pre ++ [loadingFinished
                         (mkCsvData (fields h)
                            (map fields (take (Z.to_nat MAX_ROWS_TO_LOAD) ls)))]) n)
    /\ Forall (fun s => isTerminal s = false) pre.
Proof.
  intros Hex Hop Hlines. unfold run. rewrite Hex, Hop. simpl.
  assert (Hne : contents f <> EmptyString).
  { intros E. rewrite E in Hlines. discriminate. }
  rewrite (textLines_readLine _ Hne) in Hlines.
  destruct (QTextStream.atEnd (contents f)) eqn:Hend.
  { destruct (contents f); simpl in *; congruence. }
  simpl. destruct (QTextStream.readLine (contents f)) as [hl rest]. simpl in *.
  injection Hlines as -> <-.
  set (st2 := mkRunState rest _ 0 _ 1%nat _).
  destruct (readRows_uncancelled (String.length rest) (fileSize f) st2)
    as (st3 & Hrun & Hrows & Hn); [reflexivity | simpl; unfold MAX_ROWS_TO_LOAD; lia|].
  destruct (readRows_exit (String.length rest) (fileSize f) None st2)
    as (st3' & Hrun' & Hh & _ & ps & He & Hps); [reflexivity|].
  rewrite Hrun in Hrun'. injection Hrun' as <-.
  rewrite Hrun. simpl in Hrows, Hn, Hh, He. rewrite Z.sub_0_r in Hrows, Hn.
  simpl. rewrite Hh. rewrite (bool_decide_eq_false_2 _ (fields_nonempty h)).
  rewrite andb_false_r. simpl. rewrite andb_true_r.
  assert (Hdata : csvData st3 =
            mkCsvData (fields h) (map fields (take (Z.to_nat MAX_ROWS_TO_LOAD)
                                                (textLines rest)))).
  { destruct (csvData st3) as [hs rs]. simpl in *. congruence. }
  destruct (rowsLoaded st3 =? 0); simpl; rewrite He, Hdata; unfold finish, emit; simpl.
  - eexists (_ :: ps), _. simpl. split; [reflexivity|].
    constructor; [reflexivity|assumption].
  - eexists (_ :: ps ++ [_]), _. simpl. rewrite <- !app_assoc. simpl.
    split; [reflexivity|].
    constructor; [reflexivity|]. apply Forall_app. split; [assumption|].
    repeat constructor.
Qed.

End LoaderUncancelled.

Section LoaderOutcome.
Import CsvLoader.

Lemma one_terminal_count (pre : list Signal) (t : Signal) :
  Forall (fun s => isTerminal s = false) pre -> isTerminal t = true ->
  length (List.filter isTerminal (pre ++ [t])) = 1%nat.
Proof.
  intros Hpre Ht. induction Hpre as [|s pre Hs _ IH]; simpl.
  - rewrite Ht. reflexivity.
  - rewrite Hs. exact IH.
Qed.

Lemma no_success_before_error (pre : list Signal) (m : string) :
  Forall (fun s => isTerminal s = false) pre ->
  Forall (fun s => isSuccess s = false) (pre ++ [errorOccurred m]).
Proof.
  intros Hpre. apply Forall_app. split.
  - eapply Forall_impl; [exact Hpre|]. intros [] ?; simpl in *; congruence.
  - repeat constructor.
Qed.

(** Every run returns, and its signals are progress reports followed by one
    terminal signal; that signal is a cancellation error whenever one of the
    reads of the flag made by the run returned true. *)
Lemma run_shape path f c :
  exists r pre t,
    run path f c = Some r /\ signals r = pre ++ [t] /\
    isTerminal t = true /\ Forall (fun s => isTerminal s = false) pre /\
    ((exists k, (k < polls r)%nat /\ isCancelled c k = true) ->
     exists m, t = errorOccurred m /\ cancelledMessage m).
Proof.
  unfold run.
  destruct (file_exists f); simpl.
  2:{ eexists _, [], _. split; [reflexivity|]. simpl.
      repeat split; auto. intros (k & Hk & _). lia. }
  destruct (file_opens f); simpl.
  2:{ eexists _, [], _. split; [reflexivity|]. simpl.
      repeat split; auto. intros (k & Hk & _). lia. }
  destruct (QTextStream.atEnd (contents f)); simpl.
  { eexists _, [], _. split; [reflexivity|]. simpl.
    repeat split; auto. intros (k & Hk & _). lia. }
  destruct (QTextStream.readLine (contents f)) as [hl rest]. simpl.
  destruct (isCancelled c 0) eqn:Hc0.
  { eexists _, [_], _. split; [reflexivity|]. simpl.
    repeat split; auto. intros _. eexists; split; [reflexivity|]. left; reflexivity. }
  set (st2 := mkRunState rest _ 0 _ 1%nat _).
  destruct (readRows_exit (String.length rest) (fileSize f) c st2)
    as (st3 & Hrun & Hh & Hr & ps & He & Hps); [reflexivity|].
  rewrite Hrun. simpl in *. rewrite He.
  destruct (isCancelled c (reads st3)) eqn:Hc3.
  { eexists _, (_ :: ps), _. split; [reflexivity|]. simpl.
    repeat split; auto. intros _. eexists; split; [reflexivity|]. right; reflexivity. }
  assert (Hno : ~ exists k, (k < S (reads st3))%nat /\ isCancelled c k = true).
  { intros (k & Hk & Hk'). apply (isCancelled_mono c k (reads st3)) in Hk'; [|lia].
    congruence. }
  destruct ((rowsLoaded st3 =? 0) && bool_decide (headers (csvData st3) = [])).
  { eexists _, (_ :: ps), _. split; [reflexivity|]. simpl.
    repeat split; auto. intros Hk. contradiction. }
  destruct ((rowsLoaded st3 =? 0) && negb (bool_decide (headers (csvData st3) = []))).
  { eexists _, (_ :: ps), _. split; [reflexivity|]. simpl.
    repeat split; auto. intros Hk. contradiction. }
  eexists _, (_ :: ps ++ [_]), _. split; [reflexivity|]. simpl.
  rewrite <- !app_assoc. simpl. repeat split; auto.
  - constructor; [reflexivity|]. apply Forall_app. split; [assumption|].
    repeat constructor.
  - intros Hk. contradiction.
Qed.

End LoaderOutcome.

Lemma textLines_emptyLines n : textLines (emptyLines n) = repeat EmptyString n.
Proof.
  induction n as [|n IH]; simpl; [reflexivity|].
  rewrite IH. reflexivity.
Qed.

Lemma textLines_header_emptyLines n :
  textLines ("h" +:+ MainWindow.nl +:+ emptyLines n) = "h" :: repeat EmptyString n.
Proof.
  change ("h" +:+ MainWindow.nl +:+ emptyLines n)
    with (String "h" (String QString.newline (emptyLines n))).
  change (textLines (String "h" (String QString.newline (emptyLines n))))
    with (match textLines (emptyLines n) with
          | l => String "h" EmptyString :: l
          end).
  rewrite textLines_emptyLines. reflexivity.
Qed.

(** ** The claims about the loader *)

Section LoaderClaims.
Import CsvLoader.

(** C1. For every readable CSV file whose text has a header line [h] and
    then the data lines [ls], a load during which no read of the
    cancellation flag returns true succeeds: after progress reports only, it
    delivers one table, with the header list of [h] and one row per data
    line among the first 50000, in order. The table has [min (N, 50000)]
    rows for [N] data lines: [N] of them when [N <= 50000] and 50000 when
    [N > 50000]. *)
Theorem C1_load_row_count path f h ls :
  file_exists f = true -> file_opens f = true ->
  textLines (contents f) = h :: ls ->
  exists pre n data,
    run path f None = Some (mkRunResult (pre ++ [loadingFinished data]) n)
    /\ Forall (fun s => isTerminal s = false) pre
    /\ headers data = fields h
    /\ rows data = map fields (take (Z.to_nat MAX_ROWS_TO_LOAD) ls)
    /\ Z.of_nat (length (rows data)) = Z.min (Z.of_nat (length ls)) 50000
    /\ (Z.of_nat (length ls) <= 50000 -> length (rows data) = length ls)
    /\ (50000 < Z.of_nat (length ls) -> Z.of_nat (length (rows data)) = 50000).
Proof.
  intros Hex Hop Hlines.
  destruct (run_uncancelled path f h ls Hex Hop Hlines) as (pre & n & Hrun & Hpre).
  exists pre, n, (mkCsvData (fields h)
                    (map fields (take (Z.to_nat MAX_ROWS_TO_LOAD) ls))).
  split; [exact Hrun|]. split; [exact Hpre|]. simpl.
  rewrite length_map, length_take. unfold MAX_ROWS_TO_LOAD.
  repeat split; lia.
Qed.

(** A file of three lines, and a file of one header line and 50001 empty
    data lines, of which 50000 are loaded. *)
Lemma C1_load_row_count_witness :
  (exists pre n data,
      run "data.csv"
          (mkQFile true true EmptyString 16
                   ("id,name" +:+ MainWindow.nl +:+ "1,a" +:+ MainWindow.nl
                    +:+ "2,b" +:+ MainWindow.nl)) None
      = Some (mkRunResult (pre ++ [loadingFinished data]) n)
      /\ headers data = fields "id,name"
      /\ rows data = map fields (take (Z.to_nat MAX_ROWS_TO_LOAD) ["1,a"; "2,b"])
      /\ length (rows data) = 2%nat)
  /\ (exists pre n data,
         run "big.csv"
             (mkQFile true true EmptyString 50003
                      ("h" +:+ MainWindow.nl
                       +:+ emptyLines (Z.to_nat 50001))) None
         = Some (mkRunResult (pre ++ [loadingFinished data]) n)
         /\ Z.of_nat (length (rows data)) = 50000).
Proof.
  split.
  - destruct (C1_load_row_count "data.csv"
                (mkQFile true true EmptyString 16
                         ("id,name" +:+ MainWindow.nl +:+ "1,a" +:+ MainWindow.nl
                          +:+ "2,b" +:+ MainWindow.nl))
                "id,name" ["1,a"; "2,b"] eq_refl eq_refl eq_refl)
      as (pre & n & data & Hrun & _ & Hh & Hr & _ & Hn & _).
    exists pre, n, data. repeat split; try assumption. apply Hn. simpl. lia.
  - destruct (C1_load_row_count "big.csv"
                (mkQFile true true EmptyString 50003
                         ("h" +:+ MainWindow.nl +:+ emptyLines (Z.to_nat 50001)))
                "h" (repeat EmptyString (Z.to_nat 50001)) eq_refl eq_refl
                (textLines_header_emptyLines (Z.to_nat 50001)))
      as (pre & n & data & Hrun & _ & _ & _ & _ & _ & Hcap).
    exists pre, n, data. split; [exact Hrun|]. apply Hcap.
    rewrite repeat_length. lia.
Defined.

(** C9. Loading a readable file whose text is a header line and nothing
    else, with no read of the cancellation flag returning true, reports
    success and no error: the one terminal signal carries a table whose
    header list is not empty and whose row list is empty. *)
Theorem C9_header_only_success path f h :
  file_exists f = true -> file_opens f = true ->
  textLines (contents f) = [h] ->
  exists n data,
    run path f None =
      Some (mkRunResult [progressUpdated 0 "Header loaded."; loadingFinished data] n)
    /\ headers data = fields h /\ headers data <> [] /\ rows data = [].
Proof.
  intros Hex Hop Hlines. unfold run. rewrite Hex, Hop. simpl.
  assert (Hne : contents f <> EmptyString).
  { intros E. rewrite E in Hlines. discriminate. }
  rewrite (textLines_readLine _ Hne) in Hlines.
  destruct (QTextStream.atEnd (contents f)) eqn:Hend.
  { destruct (contents f); simpl in *; congruence. }
  simpl. destruct (QTextStream.readLine (contents f)) as [hl rest]. simpl in *.
  injection Hlines as -> Hrest. apply textLines_nil in Hrest. subst rest.
  simpl. rewrite (bool_decide_eq_false_2 _ (fields_nonempty h)). simpl.
  eexists _, _. split; [reflexivity|]. simpl.
  repeat split. apply fields_nonempty.
Qed.

Lemma C9_header_only_success_witness :
  exists n data,
    run "data.csv"
        (mkQFile true true EmptyString 8 ("id,name" +:+ MainWindow.nl)) None =
      Some (mkRunResult [progressUpdated 0 "Header loaded."; loadingFinished data] n)
    /\ headers data = fields "id,name" /\ headers data <> [] /\ rows data = [].
Proof.
  apply (C9_header_only_success "data.csv"
           (mkQFile true true EmptyString 8 ("id,name" +:+ MainWindow.nl))
           "id,name"); reflexivity.
Defined.

(** C5. Every run returns, and when any read of the cancellation flag made
    by the run (the one before row reading or one of those made once per row
    or the one after the loop) returned true, the terminal signal of the run
    is the cancellation error and no success signal, hence no table, is
    emitted at all. *)
Theorem C5_cancelled_never_success path f c :
  exists r,
    run path f c = Some r /\
    ((exists k, (k < polls r)%nat /\ isCancelled c k = true) ->
     (exists pre m, signals r = pre ++ [errorOccurred m] /\ cancelledMessage m
                    /\ Forall (fun s => isTerminal s = false) pre)
     /\ Forall (fun s => isSuccess s = false) (signals r)).
Proof.
  destruct (run_shape path f c) as (r & pre & t & Hrun & Hsig & Ht & Hpre & Hc).
  exists r. split; [exact Hrun|]. intros Hk.
  destruct (Hc Hk) as (m & -> & Hm). split.
  - exists pre, m. auto.
  - rewrite Hsig. apply no_success_before_error. exact Hpre.
Qed.

Lemma C5_cancelled_never_success_witness :
  exists r,
    run "data.csv"
        (mkQFile true true EmptyString 16
                 ("id,name" +:+ MainWindow.nl +:+ "1,a" +:+ MainWindow.nl
                  +:+ "2,b" +:+ MainWindow.nl)) (Some 1%nat)
    = Some r
    /\ (exists pre m, signals r = pre ++ [errorOccurred m] /\ cancelledMessage m
                      /\ Forall (fun s => isTerminal s = false) pre)
    /\ Forall (fun s => isSuccess s = false) (signals r).
Proof.
  destruct (C5_cancelled_never_success "data.csv"
              (mkQFile true true EmptyString 16
                       ("id,name" +:+ MainWindow.nl +:+ "1,a" +:+ MainWindow.nl
                        +:+ "2,b" +:+ MainWindow.nl)) (Some 1%nat))
    as (r & Hrun & Hcancel).
  exists r. split; [exact Hrun|]. apply Hcancel.
  vm_compute in Hrun. injection Hrun as <-.
  exists 1%nat. split; [simpl; lia|reflexivity].
Defined.

(** C10. Every run of the loader returns and emits exactly one terminal
    signal, an error or a success carrying the table, as its last signal;
    all signals before it are progress reports. For a missing file, a file
    that cannot be opened and an empty file that one signal is the error of
    the case and the only signal. *)
Theorem C10_one_terminal_signal path f c :
  exists r pre t,
    run path f c = Some r /\ signals r = pre ++ [t] /\
    isTerminal t = true /\ Forall (fun s => isTerminal s = false) pre /\
    length (List.filter isTerminal (signals r)) = 1%nat /\
    (file_exists f = false ->
     signals r = [errorOccurred ("File not found: " +:+ path)]) /\
    (file_exists f = true -> file_opens f = false ->
     signals r = [errorOccurred ("Failed to open file: " +:+ path +:+
                                 ". Error: " +:+ errorString f)]) /\
    (file_exists f = true -> file_opens f = true -> contents f = EmptyString ->
     signals r = [errorOccurred "File is empty or header could not be read."]).
Proof.
  destruct (run_shape path f c) as (r & pre & t & Hrun & Hsig & Ht & Hpre & _).
  exists r, pre, t. split; [exact Hrun|]. split; [exact Hsig|].
  split; [exact Ht|]. split; [exact Hpre|]. split.
  { rewrite Hsig. apply one_terminal_count; assumption. }
  unfold run in Hrun. repeat split.
  - intros He. rewrite He in Hrun. simpl in Hrun. injection Hrun as <-. reflexivity.
  - intros He Ho. rewrite He, Ho in Hrun. simpl in Hrun. injection Hrun as <-.
    reflexivity.
  - intros He Ho Hc. rewrite He, Ho, Hc in Hrun. simpl in Hrun.
    injection Hrun as <-. reflexivity.
Qed.

Lemma C10_one_terminal_signal_witness :
  exists r,
    run "nofile.csv" (mkQFile false false "No such file" 0 EmptyString) None = Some r
    /\ signals r = [errorOccurred "File not found: nofile.csv"]
    /\ length (List.filter isTerminal (signals r)) = 1%nat.
Proof.
  destruct (C10_one_terminal_signal "nofile.csv"
              (mkQFile false false "No such file" 0 EmptyString) None)
    as (r & pre & t & Hrun & _ & _ & _ & Hone & Hmissing & _).
  exists r. split; [exact Hrun|]. split; [|exact Hone].
  apply Hmissing. reflexivity.
Defined.

End LoaderClaims.

(** * The decimal reader satisfies the [toDouble] interface *)

Section DecimalFacts.
Import Decimal.

Lemma filterMeta_foreign x : filterMeta x = true -> foreign x.
Proof.
  unfold filterMeta, QString.eqc. rewrite !orb_true_iff, !Ascii.eqb_eq.
  intros [[[->| ->]| ->]| ->]; repeat split; try reflexivity; discriminate.
Qed.

Lemma containsChar_cons x d s :
  QString.containsChar x (String d s) = true ->
  d = x \/ QString.containsChar x s = true.
Proof.
  simpl. unfold QString.eqc. rewrite orb_true_iff, Ascii.eqb_eq. tauto.
Qed.

Lemma containsChar_trimLeft x s :
  QString.isSpace x = false -> QString.containsChar x s = true ->
  QString.containsChar x (QString.trimLeft s) = true.
Proof.
  intros Hx. induction s as [|d s IH]; [trivial|]. intros Hc.
  simpl. destruct (QString.isSpace d) eqn:Hd; [|exact Hc].
  apply containsChar_cons in Hc as [->|Hc]; [congruence|auto].
Qed.

Lemma containsChar_trimRight x s :
  QString.isSpace x = false -> QString.containsChar x s = true ->
  QString.containsChar x (QString.trimRight s) = true.
Proof.
  intros Hx. induction s as [|d s IH]; [trivial|]. intros Hc.
  apply containsChar_cons in Hc as [->|Hc].
  - simpl. rewrite Hx. simpl. unfold QString.eqc. rewrite Ascii.eqb_refl. reflexivity.
  - specialize (IH Hc). simpl.
    destruct (QString.trimRight s); [discriminate|].
    rewrite andb_false_r. simpl. simpl in IH. rewrite IH. apply orb_true_r.
Qed.

Lemma digits_keeps x s : forall acc n v n' r,
  isDigit x = false -> digits acc n s = (v, n', r) ->
  QString.containsChar x s = true -> QString.containsChar x r = true.
Proof.
  induction s as [|d s IH]; intros acc n v n' r Hx Hd Hc; [discriminate|].
  simpl in Hd. destruct (isDigit d) eqn:Ed.
  - apply containsChar_cons in Hc as [->|Hc]; [congruence|]. eauto.
  - injection Hd as _ _ <-. exact Hc.
Qed.

Lemma sign_keeps x s neg r :
  x <> "-"%char -> x <> "+"%char -> sign s = (neg, r) ->
  QString.containsChar x s = true -> QString.containsChar x r = true.
Proof.
  intros Hm Hp Hs Hc. destruct s as [|d s]; [discriminate|].
  simpl in Hs. unfold QString.eqc in Hs.
  destruct (Ascii.eqb_spec d "-"); [|destruct (Ascii.eqb_spec d "+")];
    injection Hs as _ <-; try exact Hc;
    apply containsChar_cons in Hc as [->|Hc]; congruence.
Qed.

Lemma exponent_foreign x s :
  foreign x -> QString.containsChar x s = true -> exponent s = None.
Proof.
  intros (_ & Hd & Hm & Hp & _ & He & HE) Hc.
  destruct s as [|d s]; [discriminate|]. simpl. unfold QString.eqc.
  destruct (Ascii.eqb d "e" || Ascii.eqb d "E") eqn:E; [|reflexivity].
  apply containsChar_cons in Hc as [Hc|Hc].
  { subst d. apply orb_true_iff in E as [E|E]; apply Ascii.eqb_eq in E; congruence. }
  destruct (sign s) as [neg s1] eqn:Es.
  destruct (digits 0 0 s1) as [[e ne] s2] eqn:Ed.
  pose proof (digits_keeps x _ _ _ _ _ _ Hd Ed (sign_keeps x _ _ _ Hm Hp Es Hc)) as Hc2.
  destruct (ne =? 0)%nat; [reflexivity|].
  destruct s2; [discriminate|reflexivity].
Qed.

Lemma parse_foreign x s :
  foreign x -> QString.containsChar x s = true -> parse s = None.
Proof.
  intros Hf Hc. pose proof Hf as (Hsp & Hd & Hm & Hp & Hdot & _).
  unfold parse, QString.trimmed.
  apply (containsChar_trimLeft x s Hsp), (containsChar_trimRight x _ Hsp) in Hc.
  destruct (sign (QString.trimRight (QString.trimLeft s))) as [neg t1] eqn:Es.
  apply (sign_keeps x _ _ _ Hm Hp Es) in Hc.
  destruct (digits 0 0 t1) as [[ip ni] t2] eqn:Ei.
  apply (digits_keeps x _ _ _ _ _ _ Hd Ei) in Hc.
  assert (Hexp : forall m nf t3,
             QString.containsChar x t3 = true ->
             (if (ni + nf =? 0)%nat then None
              else match exponent t3 with
                   | Some e => Some (scale (if neg then - m else m) (e - Z.of_nat nf))
                   | None => None
                   end) = (None : option Q)).
  { intros m nf t3 H3. rewrite (exponent_foreign x t3 Hf H3).
    destruct (ni + nf =? 0)%nat; reflexivity. }
  destruct t2 as [|d r]; [discriminate|].
  unfold QString.eqc. destruct (Ascii.eqb_spec d ".") as [->|].
  - apply containsChar_cons in Hc as [Hc|Hc]; [congruence|].
    destruct (digits ip 0 r) as [[m nf] t3] eqn:Ef.
    apply Hexp. exact (digits_keeps x _ _ _ _ _ _ Hd Ef Hc).
  - apply Hexp. exact Hc.
Qed.

End DecimalFacts.


(** The decimal reader meets the laws of the interface. *)
#[export] Instance decimalToDouble_laws : ToDoubleLaws decimalToDouble.
Proof.
  split.
  - reflexivity.
  - intros s v c Hs Hc. simpl in Hs.
    destruct (QString.containsChar c s) eqn:E; [|reflexivity].
    rewrite (parse_foreign c s (filterMeta_foreign c Hc) E) in Hs. discriminate.
Qed.

(** * Properties of the row filters *)

Section StringFacts.

Lemma containsChar_app c a b :
  QString.containsChar c (a +:+ b) = QString.containsChar c a || QString.containsChar c b.
Proof.
  induction a as [|d a IH]; simpl; [reflexivity|].
  rewrite IH. apply orb_assoc.
Qed.

Lemma split_no_sep sep b :
  QString.containsChar sep b = false -> QString.split sep b = [b].
Proof.
  unfold QString.split. induction b as [|d b IH]; simpl; [reflexivity|].
  intros Hc. apply orb_false_iff in Hc as [Hd Hc]. specialize (IH Hc).
  destruct (QString.split_ne sep b) as [hd tl]. rewrite Hd. congruence.
Qed.

Lemma split_app sep a b :
  QString.containsChar sep a = false ->
  QString.split sep (a +:+ String sep b) = a :: QString.split sep b.
Proof.
  unfold QString.split. induction a as [|d a IH]; simpl.
  - intros _. destruct (QString.split_ne sep b) as [hd tl].
    unfold QString.eqc. rewrite Ascii.eqb_refl. reflexivity.
  - intros Hc. apply orb_false_iff in Hc as [Hd Hc]. specialize (IH Hc).
    destruct (QString.split_ne sep (a +:+ String sep b)) as [hd tl].
    rewrite Hd. destruct (QString.split_ne sep b) as [hd' tl']. congruence.
Qed.

End StringFacts.

Section FilterFacts.
Context `{TD : ToDouble} {TL : ToDoubleLaws TD}.
Import MainWindow.

Lemma matchesFrom_forallb filters row js :
  matchesFrom filters row js = forallb (columnOk filters row) js.
Proof.
  induction js as [|j js IH]; [reflexivity|].
  cbn [matchesFrom forallb]. rewrite IH. unfold columnOk.
  destruct (QString.isEmpty (nth j filters EmptyString)); simpl; [reflexivity|].
  destruct (filterMatches _ _); reflexivity.
Qed.

Lemma activeFilters_length w : length (activeFilters w) = length (headerFilters w).
Proof. unfold activeFilters. apply length_map. Qed.

Lemma isEmpty_true s : QString.isEmpty s = true <-> s = EmptyString.
Proof. destruct s; simpl; split; congruence. Qed.

(** The test made for each row when a filter is active. *)
Lemma matchesAllFilters_spec w row :
  matchesAllFilters w row = true <->
  (length (headerFilters w) <= length row)%nat
  /\ satisfiesFilters (activeFilters w) row.
Proof.
  unfold matchesAllFilters.
  destruct (Nat.ltb_spec (length row) (length (headerFilters w))) as [Hlt|Hge].
  { split; [discriminate|]. intros [? _]. lia. }
  rewrite Nat.min_l by exact Hge.
  rewrite matchesFrom_forallb, forallb_forall. split.
  - intros Hall. split; [exact Hge|]. intros j f Hj Hf.
    assert (Hjlt : (j < length (headerFilters w))%nat).
    { rewrite <- activeFilters_length. eapply lookup_lt_Some; eauto. }
    destruct (lookup_lt_is_Some_2 row j) as [cell Hcell]; [lia|].
    exists cell. split; [exact Hcell|].
    specialize (Hall j). rewrite in_seq in Hall. specialize (Hall ltac:(lia)).
    unfold columnOk in Hall. rewrite !nth_lookup, Hj, Hcell in Hall. simpl in Hall.
    destruct f; [congruence|]. exact Hall.
  - intros [_ Hsat] j Hj. apply in_seq in Hj.
    destruct (lookup_lt_is_Some_2 (activeFilters w) j) as [f Hf].
    { rewrite activeFilters_length. lia. }
    unfold columnOk. rewrite !nth_lookup, Hf. simpl.
    destruct f as [|c f]; [reflexivity|].
    destruct (Hsat j _ Hf) as (cell & Hcell & Hm); [discriminate|].
    rewrite Hcell. simpl. exact Hm.
Qed.

Lemma startsWith_meta_false s (c : ascii) v p :
  toDouble s = Some v -> filterMeta c = true ->
  QString.startsWith (s +:+ p) (String c EmptyString) = false.
Proof.
  intros Hs Hc. destruct s as [|d s].
  - rewrite toDouble_empty in Hs. discriminate.
  - pose proof (toDouble_no_meta _ _ c Hs Hc) as Hn. simpl in Hn.
    apply orb_false_iff in Hn as [Hd _]. simpl. rewrite Hd. reflexivity.
Qed.

(** One cell against a range filter whose two ends are numbers. *)
Lemma filterMatches_range cell smin smax mn mx :
  toDouble smin = Some mn -> toDouble smax = Some mx ->
  filterMatches cell (smin +:+ String QString.colon smax)
  = inRangeOrContains mn mx (smin +:+ String QString.colon smax) cell.
Proof.
  intros Hmin Hmax. unfold filterMatches, inRangeOrContains.
  rewrite (startsWith_meta_false smin ">" mn), (startsWith_meta_false smin "<" mn),
    (startsWith_meta_false smin "=" mn) by (assumption || reflexivity).
  simpl orb. cbv iota.
  rewrite containsChar_app. simpl QString.containsChar at 2.
  rewrite orb_true_r.
  rewrite split_app by (eapply toDouble_no_meta; [exact Hmin|reflexivity]).
  rewrite split_no_sep by (eapply toDouble_no_meta; [exact Hmax|reflexivity]).
  rewrite Hmin, Hmax. destruct (toDouble cell); reflexivity.
Qed.

End FilterFacts.

(** ** The claims about the row filters *)

Section FilterClaims.
Import MainWindow.

Lemma forallb_only (f : nat -> bool) (j : nat) (js : list nat) :
  In j js -> (forall i, In i js -> i <> j -> f i = true) ->
  forallb f js = f j.
Proof.
  intros Hj Hrest. destruct (f j) eqn:Fj.
  - apply forallb_forall. intros i Hi.
    destruct (Nat.eq_dec i j) as [->|Hne]; [exact Fj|auto].
  - destruct (forallb f js) eqn:Fa; [|reflexivity].
    rewrite forallb_forall in Fa. rewrite (Fa j Hj) in Fj. discriminate.
Qed.

Lemma anyFilterActive_intro `{ToDouble} w j f :
  activeFilters w !! j = Some f -> f <> EmptyString -> anyFilterActive w = true.
Proof.
  intros Hj Hf. unfold anyFilterActive. apply existsb_exists. exists f. split.
  - apply list_elem_of_In. eapply list_elem_of_lookup_2. exact Hj.
  - destruct f; [congruence|reflexivity].
Qed.

(** C8. For every table and every filter assignment in which all filter
    strings (the trimmed texts of the filter boxes) are empty, applying the
    filters leaves as displayed table the loaded table itself: same headers,
    same rows with the same cells, same order. *)
Theorem C8_no_filter_identity `{ToDouble} w :
  Forall (fun f => f = EmptyString) (activeFilters w) ->
  currentlyDisplayedData (applyTableFilters w) = currentCsvData w.
Proof.
  intros Hall. unfold applyTableFilters.
  assert (Hany : anyFilterActive w = false).
  { unfold anyFilterActive. induction Hall as [|f fs Hf _ IH]; simpl; [reflexivity|].
    rewrite Hf. exact IH. }
  rewrite Hany. reflexivity.
Qed.

Lemma C8_no_filter_identity_witness :
  currentlyDisplayedData
    (applyTableFilters
       (windowWith (mkCsvData ["n"; "tag"] [["1"; "a"]; ["6"; "a"]; ["6"; "b"]])
                   [EmptyString; "  "]))
  = mkCsvData ["n"; "tag"] [["1"; "a"]; ["6"; "a"]; ["6"; "b"]].
Proof.
  apply (C8_no_filter_identity
           (windowWith (mkCsvData ["n"; "tag"] [["1"; "a"]; ["6"; "a"]; ["6"; "b"]])
                       [EmptyString; "  "])).
  repeat constructor.
Defined.

(** C2, as the code has it. When at least one filter string is non-empty,
    the displayed table keeps the headers and keeps, in their order, exactly
    the rows that have at least as many cells as there are filter boxes and
    satisfy every non-empty per-column filter (a conjunction, tested column
    by column from the left and left at the first filter that fails). The
    table [[1,a],[6,a],[6,b]] with [>5] on column 0 and [a] on column 1
    yields exactly [[6,a]]. *)
Theorem C2_filters_conjunction :
  (forall (TD : ToDouble) w,
      anyFilterActive w = true ->
      headers (currentlyDisplayedData (applyTableFilters w))
      = headers (currentCsvData w)
      /\ rows (currentlyDisplayedData (applyTableFilters w))
         = List.filter (matchesAllFilters w) (rows (currentCsvData w))
      /\ forall row,
          In row (rows (currentlyDisplayedData (applyTableFilters w))) <->
          In row (rows (currentCsvData w))
          /\ (length (headerFilters w) <= length row)%nat
          /\ satisfiesFilters (activeFilters w) row)
  /\ rows (currentlyDisplayedData
             (applyTableFilters
                (windowWith (mkCsvData ["n"; "tag"]
                                       [["1"; "a"]; ["6"; "a"]; ["6"; "b"]])
                            [">5"; "a"])))
     = [["6"; "a"]].
Proof.
  split; [|vm_compute; reflexivity].
  intros TD w Hany. unfold applyTableFilters. rewrite Hany. simpl.
  split; [reflexivity|]. split; [reflexivity|].
  intros row. rewrite filter_In, matchesAllFilters_spec. tauto.
Qed.

Lemma C2_filters_conjunction_witness :
  let w := windowWith (mkCsvData ["n"; "tag"] [["1"; "a"]; ["6"; "a"]; ["6"; "b"]])
                      [">5"; "a"] in
  rows (currentlyDisplayedData (applyTableFilters w))
  = List.filter (matchesAllFilters w) (rows (currentCsvData w)).
Proof.
  intros w.
  exact (proj1 (proj2 (proj1 C2_filters_conjunction decimalToDouble w eq_refl))).
Defined.

(** C2 as it was stated fails on a row that is shorter than the number of
    filter boxes: the row [[6]] of a two-column table satisfies the only
    non-empty filter, [>5] on column 0, and is not kept. *)
Lemma C2_short_row_counterexample :
  let w := windowWith (mkCsvData ["n"; "tag"] [["6"]]) [">5"; EmptyString] in
  anyFilterActive w = true
  /\ In ["6"] (rows (currentCsvData w))
  /\ satisfiesFilters (activeFilters w) ["6"]
  /\ ~ In ["6"] (rows (currentlyDisplayedData (applyTableFilters w))).
Proof.
  intros w. split; [reflexivity|]. split; [left; reflexivity|]. split.
  - intros j f Hj Hf. destruct j as [|[|j]]; vm_compute in Hj.
    + injection Hj as <-. exists "6". split; [reflexivity|]. vm_compute. reflexivity.
    + injection Hj as <-. congruence.
    + discriminate.
  - vm_compute. tauto.
Qed.

(** C3, as the code has it, for every [toDouble] that meets [ToDoubleLaws].
    A range filter [min:max] whose two ends are numbers, the only non-empty
    filter and on column [j], keeps in their order exactly the rows
    that have at least as many cells as there are filter boxes and whose
    cell in column [j] either is a number [v] with [min <= v <= max] or is
    not a number and contains the filter text, letter case ignored. So every
    kept row whose cell is a number has it within the two ends, both
    included, and a range with [max < min] keeps no row whose cell is a
    number. *)
Theorem C3_range_filter (TD : ToDouble) (TL : ToDoubleLaws TD) w j smin smax mn mx :
  toDouble smin = Some mn -> toDouble smax = Some mx ->
  activeFilters w !! j = Some (smin +:+ String QString.colon smax) ->
  (forall i f, i <> j -> activeFilters w !! i = Some f -> f = EmptyString) ->
  let displayed := rows (currentlyDisplayedData (applyTableFilters w)) in
  displayed
  = List.filter
      (fun row => (length (headerFilters w) <=? length row)%nat
                  && inRangeOrContains mn mx (smin +:+ String QString.colon smax)
                                       (nth j row EmptyString))
      (rows (currentCsvData w))
  /\ (forall row v, In row displayed -> toDouble (nth j row EmptyString) = Some v ->
                    (mn <= v <= mx)%Q)
  /\ ((mx < mn)%Q ->
      forall row, In row displayed -> toDouble (nth j row EmptyString) = None).
Proof.
  intros Hmin Hmax Hj Hothers displayed.
  set (ftext := smin +:+ String QString.colon smax) in *.
  assert (Hne : ftext <> EmptyString).
  { subst ftext. destruct smin; discriminate. }
  assert (Hrows : displayed = List.filter
      (fun row => (length (headerFilters w) <=? length row)%nat
                  && inRangeOrContains mn mx ftext (nth j row EmptyString))
      (rows (currentCsvData w))).
  { subst displayed. unfold applyTableFilters.
    rewrite (anyFilterActive_intro w j ftext Hj Hne). simpl.
    apply filter_ext. intros row. unfold matchesAllFilters.
    destruct (Nat.ltb_spec (length row) (length (headerFilters w))) as [Hlt|Hge].
    { symmetry. apply andb_false_iff. left. apply Nat.leb_gt. exact Hlt. }
    rewrite Nat.min_l by exact Hge.
    rewrite (proj2 (Nat.leb_le _ _) Hge). simpl.
    rewrite matchesFrom_forallb.
    rewrite (forallb_only _ j).
    - unfold columnOk. rewrite (nth_lookup (activeFilters w)), Hj. simpl.
      destruct ftext eqn:E; [congruence|]. simpl. rewrite <- E.
      subst ftext. apply filterMatches_range; assumption.
    - apply in_seq. apply lookup_lt_Some in Hj. rewrite activeFilters_length in Hj. lia.
    - intros i Hi Hij. apply in_seq in Hi.
      destruct (lookup_lt_is_Some_2 (activeFilters w) i) as [f Hf].
      { rewrite activeFilters_length. lia. }
      unfold columnOk. rewrite (nth_lookup (activeFilters w)), Hf. simpl.
      rewrite (Hothers i f Hij Hf). reflexivity. }
  split; [exact Hrows|].
  assert (Hin : forall row v, In row displayed ->
                  toDouble (nth j row EmptyString) = Some v -> (mn <= v <= mx)%Q).
  { intros row v Hrow Hv. rewrite Hrows in Hrow. apply filter_In in Hrow as [_ Hrow].
    apply andb_true_iff in Hrow as [_ Hrow]. unfold inRangeOrContains in Hrow.
    rewrite Hv in Hrow. apply andb_true_iff in Hrow as [H1 H2].
    split; apply Qle_bool_iff; assumption. }
  split; [exact Hin|].
  intros Hinv row Hrow. destruct (toDouble (nth j row EmptyString)) as [v|] eqn:Hv;
    [|reflexivity].
  destruct (Hin row v Hrow Hv) as [H1 H2]. exfalso.
  apply (Qlt_irrefl mn). eapply Qle_lt_trans; [|exact Hinv].
  eapply Qle_trans; eassumption.
Qed.

Lemma C3_range_filter_witness :
  let w := windowWith (mkCsvData ["v"] [["5"]; ["15"]; ["abc"]; ["20"]; ["21"]])
                      ["10" +:+ String QString.colon "20"] in
  let displayed := rows (currentlyDisplayedData (applyTableFilters w)) in
  displayed
  = List.filter
      (fun row => (length (headerFilters w) <=? length row)%nat
                  && inRangeOrContains 10 20 ("10" +:+ String QString.colon "20")
                                       (nth 0 row EmptyString))
      (rows (currentCsvData w))
  /\ (forall row v, In row displayed -> toDouble (nth 0 row EmptyString) = Some v ->
                    (10 <= v <= 20)%Q)
  /\ ((20 < 10)%Q ->
      forall row, In row displayed -> toDouble (nth 0 row EmptyString) = None).
Proof.
  intros w.
  apply (C3_range_filter decimalToDouble decimalToDouble_laws w 0 "10" "20" 10 20);
    try reflexivity.
  intros i f Hi Hf. destruct i as [|i]; [congruence|].
  vm_compute in Hf. discriminate.
Defined.

(** C3 as it was stated fails on a cell that is not a number and contains
    the filter text: with the filter [10:20] on a column of clock times the
    row with the cell [10:20] is kept. *)
Lemma C3_text_cell_counterexample :
  let w := windowWith (mkCsvData ["time"] [["10:20"]; ["15"]; ["09:05"]]) ["10:20"] in
  toDouble "10" = Some 10%Q /\ toDouble "20" = Some 20%Q
  /\ toDouble "10:20" = None
  /\ In ["10:20"] (rows (currentlyDisplayedData (applyTableFilters w)))
  /\ rows (currentlyDisplayedData (applyTableFilters w)) = [["10:20"]; ["15"]].
Proof.
  vm_compute. repeat split; auto.
Qed.

End FilterClaims.

(** * Properties of the emitter colours *)

Section ColourFacts.
Import MainWindow.

Lemma paletteOf_nonempty w : (0 < length (paletteOf w))%nat.
Proof.
  unfold paletteOf. destruct (vibrantColors w); simpl; lia.
Qed.

(** Within the range of [int] a request is defined and meets [requestSpec]. *)
Lemma getEmitterColor_spec w id :
  0 <= nextColorIndex w < INT_MAX ->
  exists c w', getEmitterColor id w = Some (c, w') /\ requestSpec w id c w'.
Proof.
  intros Hn. unfold getEmitterColor, requestSpec, fixedColor.
  destruct (id =? -2) eqn:E2.
  { apply Z.eqb_eq in E2. subst id. simpl. eauto. }
  destruct (id <? 0) eqn:E0; [eauto|].
  destruct (emitterColorMap w !! id) as [c0|] eqn:Em; [eauto|].
  pose proof (paletteOf_nonempty w) as Hlen.
  set (w1 := match vibrantColors w with [] => populateDefaultColors w | _ :: _ => w end).
  assert (Hp : vibrantColors w1 = paletteOf w).
  { subst w1. unfold paletteOf. destruct (vibrantColors w) eqn:Ev; simpl; rewrite ?Ev; auto. }
  assert (Ho : nextColorIndex w1 = nextColorIndex w
               /\ emitterColorMap w1 = emitterColorMap w
               /\ currentCsvData w1 = currentCsvData w
               /\ currentlyDisplayedData w1 = currentlyDisplayedData w
               /\ headerFilters w1 = headerFilters w).
  { subst w1. destruct (vibrantColors w); simpl; auto. }
  destruct Ho as (Hn1 & Hm1 & Hd1 & Hd2 & Hf1).
  rewrite Hp, Hn1, Hm1, Hd1, Hd2, Hf1.
  destruct (paletteOf w) as [|p0 ps] eqn:Epal; [simpl in Hlen; lia|].
  rewrite <- Epal in *.
  set (len := Z.of_nat (length (paletteOf w))).
  assert (Hlenpos : 0 < len) by (subst len; lia).
  rewrite Z.rem_mod_nonneg by lia.
  pose proof (Z.mod_pos_bound (nextColorIndex w) len Hlenpos) as Hb.
  destruct (nextColorIndex w mod len <? 0) eqn:Ei; [apply Z.ltb_lt in Ei; lia|].
  destruct (lookup_lt_is_Some_2 (paletteOf w) (Z.to_nat (nextColorIndex w mod len)))
    as [c Hc]; [subst len; lia|].
  rewrite Hc.
  destruct (nextColorIndex w =? INT_MAX) eqn:Emax; [apply Z.eqb_eq in Emax; lia|].
  eauto.
Qed.

(** A request never changes or removes an entry of the colour map, and it
    advances [nextColorIndex] by exactly the number of entries it adds. *)
Lemma getEmitterColor_step w id c w' :
  getEmitterColor id w = Some (c, w') ->
  (forall k v, emitterColorMap w !! k = Some v -> emitterColorMap w' !! k = Some v)
  /\ (id < 0 -> c = fixedColor id)
  /\ (0 <= id -> emitterColorMap w' !! id = Some c)
  /\ nextColorIndex w' - Z.of_nat (size (emitterColorMap w'))
     = nextColorIndex w - Z.of_nat (size (emitterColorMap w)).
Proof.
  unfold getEmitterColor, fixedColor.
  destruct (id =? -2) eqn:E2.
  { intros [= <- <-]. apply Z.eqb_eq in E2. repeat split; auto; lia. }
  destruct (id <? 0) eqn:E0.
  { intros [= <- <-]. apply Z.ltb_lt in E0. repeat split; auto; lia. }
  apply Z.ltb_ge in E0.
  destruct (emitterColorMap w !! id) as [c0|] eqn:Em.
  { intros [= <- <-]. repeat split; auto; lia. }
  set (w1 := match vibrantColors w with [] => populateDefaultColors w | _ :: _ => w end).
  assert (Ho : nextColorIndex w1 = nextColorIndex w
               /\ emitterColorMap w1 = emitterColorMap w).
  { subst w1. destruct (vibrantColors w); simpl; auto. }
  destruct Ho as (Hn1 & Hm1).
  assert (Hv : vibrantColors w1 <> []).
  { subst w1. destruct (vibrantColors w) eqn:Ev; simpl; rewrite Ev; discriminate. }
  destruct (vibrantColors w1) as [|p0 ps]; [congruence|].
  destruct (Z.rem _ _ <? 0); [discriminate|].
  destruct (_ !! Z.to_nat _) as [newColor|]; [|discriminate].
  destruct (nextColorIndex w1 =? INT_MAX); [discriminate|].
  intros [= <- <-]. simpl. rewrite Hn1, Hm1. repeat split.
  - intros k v Hk. rewrite lookup_insert_ne; [exact Hk|]. congruence.
  - lia.
  - intros _. apply lookup_insert_eq.
  - rewrite map_size_insert_None by exact Em. lia.
Qed.

(** In a sequence of requests, a request for an id that has a colour in
    the map at the start returns that colour. *)
Lemma getEmitterColors_memo ids : forall w cs w' j id c,
  getEmitterColors ids w = Some (cs, w') ->
  ids !! j = Some id -> 0 <= id -> emitterColorMap w !! id = Some c ->
  cs !! j = Some c.
Proof.
  induction ids as [|i0 ids IH]; intros w cs w' j id c Hrun Hj Hid Hm; [discriminate|].
  simpl in Hrun.
  destruct (getEmitterColor i0 w) as [[c1 w1]|] eqn:E1; [|discriminate].
  destruct (getEmitterColors ids w1) as [[cs2 w2]|] eqn:E2; [|discriminate].
  injection Hrun as <- <-.
  destruct (getEmitterColor_step _ _ _ _ E1) as (Hkeep & _ & Hrec & _).
  destruct j as [|j]; simpl in *.
  - injection Hj as ->. specialize (Hrec Hid). apply Hkeep in Hm. congruence.
  - eapply IH; eauto.
Qed.

Lemma getEmitterColors_fixed ids : forall w cs w' j id,
  getEmitterColors ids w = Some (cs, w') ->
  ids !! j = Some id -> id < 0 -> cs !! j = Some (fixedColor id).
Proof.
  induction ids as [|i0 ids IH]; intros w cs w' j id Hrun Hj Hid; [discriminate|].
  simpl in Hrun.
  destruct (getEmitterColor i0 w) as [[c1 w1]|] eqn:E1; [|discriminate].
  destruct (getEmitterColors ids w1) as [[cs2 w2]|] eqn:E2; [|discriminate].
  injection Hrun as <- <-.
  destruct (getEmitterColor_step _ _ _ _ E1) as (_ & Hfix & _).
  destruct j as [|j]; simpl in *.
  - injection Hj as ->. rewrite (Hfix Hid). reflexivity.
  - eapply IH; eauto.
Qed.

(** Requests for the same id return the same colour, wherever they stand
    in a sequence, and the sequence advances [nextColorIndex] by the number
    of entries it adds to the colour map. *)
Lemma getEmitterColors_stable ids : forall w cs w',
  getEmitterColors ids w = Some (cs, w') ->
  (forall i j id, (i <= j)%nat -> ids !! i = Some id -> ids !! j = Some id ->
                  cs !! i = cs !! j)
  /\ nextColorIndex w' - Z.of_nat (size (emitterColorMap w'))
     = nextColorIndex w - Z.of_nat (size (emitterColorMap w)).
Proof.
  induction ids as [|i0 ids IH]; intros w cs w' Hrun.
  { injection Hrun as <- <-. split; [|reflexivity]. intros i j id _ Hi. discriminate. }
  pose proof Hrun as Hrun0. simpl in Hrun.
  destruct (getEmitterColor i0 w) as [[c1 w1]|] eqn:E1; [|discriminate].
  destruct (getEmitterColors ids w1) as [[cs2 w2]|] eqn:E2; [|discriminate].
  injection Hrun as <- <-.
  destruct (getEmitterColor_step _ _ _ _ E1) as (Hkeep & Hfix & Hrec & Hslots).
  destruct (IH _ _ _ E2) as (Hsame & Hslots2).
  split; [|lia].
  intros i j id Hij Hi Hj.
  destruct i as [|i]; destruct j as [|j]; simpl in *; try lia.
  - reflexivity.
  - injection Hi as ->. destruct (Z.lt_ge_cases id 0) as [Hneg|Hpos].
    + rewrite (Hfix Hneg). symmetry. eapply getEmitterColors_fixed; eauto.
    + symmetry. eapply getEmitterColors_memo; eauto.
  - apply (Hsame i j id); [lia|assumption|assumption].
Qed.

End ColourFacts.

Section ColourClaims.
Import MainWindow.

Lemma requestSpec_index w id c w' :
  requestSpec w id c w' ->
  nextColorIndex w <= nextColorIndex w' <= nextColorIndex w + 1.
Proof.
  unfold requestSpec. destruct (id <? 0); [intros [_ ->]; lia|].
  destruct (emitterColorMap w !! id); intros [_ ->]; simpl; lia.
Qed.

(** Within the range of [int] every sequence of requests is defined. *)
Lemma getEmitterColors_defined ids : forall w,
  0 <= nextColorIndex w ->
  nextColorIndex w + Z.of_nat (length ids) <= INT_MAX ->
  exists cs w', getEmitterColors ids w = Some (cs, w').
Proof.
  induction ids as [|id ids IH]; intros w H0 Hmax; simpl; [eauto|].
  simpl in Hmax.
  destruct (getEmitterColor_spec w id) as (c & w1 & E & Hs); [lia|].
  rewrite E. apply requestSpec_index in Hs.
  destruct (IH w1) as (cs & w2 & E2); [lia|lia|]. rewrite E2. eauto.
Qed.

(** C4. Each request for a colour follows [requestSpec]: an id of zero or
    more is given palette[nextColorIndex mod paletteSize] on its first
    request, which advances nextColorIndex by one, and its memoized colour,
    with nothing changed, on every later one; an id below zero has a fixed
    colour (red for -2, dark gray otherwise) and changes nothing. In every
    sequence of requests equal ids get equal colours, and the index advances
    by exactly the number of ids that entered the map. The requests
    [3, 7, 3] on a fresh window return palette slots 0, 1 and 0 again and
    leave the index at 2. *)
Theorem C4_emitter_colours :
  (forall w id,
      0 <= nextColorIndex w < INT_MAX ->
      exists c w', getEmitterColor id w = Some (c, w') /\ requestSpec w id c w')
  /\ (forall ids w,
         0 <= nextColorIndex w ->
         nextColorIndex w + Z.of_nat (length ids) <= INT_MAX ->
         exists cs w',
           getEmitterColors ids w = Some (cs, w')
           /\ (forall i j id, ids !! i = Some id -> ids !! j = Some id ->
                              cs !! i = cs !! j)
           /\ nextColorIndex w' - Z.of_nat (size (emitterColorMap w'))
              = nextColorIndex w - Z.of_nat (size (emitterColorMap w)))
  /\ (exists c0 c1 w',
         getEmitterColors [3; 7; 3] init = Some ([c0; c1; c0], w')
         /\ vibrantColors init !! 0%nat = Some c0
         /\ vibrantColors init !! 1%nat = Some c1
         /\ emitterColorMap w' !! 3 = Some c0
         /\ emitterColorMap w' !! 7 = Some c1
         /\ nextColorIndex w' = 2).
Proof.
  split; [exact getEmitterColor_spec|]. split.
  - intros ids w H0 Hmax.
    destruct (getEmitterColors_defined ids w H0 Hmax) as (cs & w' & E).
    exists cs, w'. split; [exact E|].
    destruct (getEmitterColors_stable ids w cs w' E) as (Hsame & Hslots).
    split; [|exact Hslots].
    intros i j id Hi Hj. destruct (Nat.le_ge_cases i j) as [Hij|Hij].
    + apply (Hsame i j id); assumption.
    + symmetry. apply (Hsame j i id); assumption.
  - eexists _, _, _. split; [vm_compute; reflexivity|].
    repeat split.
Qed.

Lemma C4_emitter_colours_witness :
  exists c w', getEmitterColor 3 init = Some (c, w') /\ requestSpec init 3 c w'.
Proof.
  apply (proj1 C4_emitter_colours init 3). vm_compute. split; congruence.
Defined.

End ColourClaims.

(** * Properties of the export *)

Section ExportClaims.
Import MainWindow.

(** The data rows are written with [exportField] applied to every field,
    the header row is written with the header texts as they are. *)
Lemma exportFilteredData_text w filePath row rest :
  rows (currentlyDisplayedData w) = row :: rest ->
  QString.isEmpty filePath = false ->
  exportFilteredData w filePath true
  = Exported filePath
      ((QString.join "," (headers (currentlyDisplayedData w)) +:+ nl)
       +:+ fold_right String.append EmptyString
             (map (fun r => QString.join "," (map exportField r) +:+ nl)
                  (row :: rest))).
Proof.
  intros Hrows Hpath. unfold exportFilteredData. rewrite Hrows, Hpath. reflexivity.
Qed.

(** C6, on the table that the loader produces from a file whose two lines
    both start with the field [name] between double quotes: the export wraps
    that field and doubles its quotes in the data row, and writes the very
    same text unchanged in the header row. *)
Theorem C6_header_row_not_quoted :
  let text := quotedName +:+ ",n" +:+ nl +:+ quotedName +:+ ",1" +:+ nl in
  let table := mkCsvData [quotedName; "n"] [[quotedName; "1"]] in
  let w := windowWith table [EmptyString; EmptyString] in
  (exists n,
      CsvLoader.run "in.csv" (CsvLoader.mkQFile true true EmptyString 18 text) None
      = Some (CsvLoader.mkRunResult
                [CsvLoader.progressUpdated 0 "Header loaded.";
                 CsvLoader.progressUpdated 100 "Finished loading 1 rows.";
                 CsvLoader.loadingFinished table] n))
  /\ QString.containsChar QString.dquote quotedName = true
  /\ exportField quotedName = dq +:+ dq +:+ dq +:+ "name" +:+ dq +:+ dq +:+ dq
  /\ exportField quotedName <> quotedName
  /\ exportFilteredData w "out.csv" true
     = Exported "out.csv"
         (quotedName +:+ ",n" +:+ nl
          +:+ exportField quotedName +:+ ",1" +:+ nl).
Proof.
  vm_compute. repeat split; try reflexivity; try discriminate.
  eexists. reflexivity.
Qed.

End ExportClaims.

(** * Properties of the scatter plot *)


Section PlotFacts.
Import SimplePlotWidget.
Local Open Scope Q_scope.

Lemma Qltb_true a b : Qltb a b = true <-> a < b.
Proof.
  unfold Qltb. rewrite negb_true_iff. split.
  - intros H. apply Qnot_le_lt. intros Hle. apply Qle_bool_iff in Hle. congruence.
  - intros H. destruct (Qle_bool b a) eqn:E; [|reflexivity].
    apply Qle_bool_iff in E. exfalso. exact (Qlt_not_le _ _ H E).
Qed.

Lemma Qltb_false a b : Qltb a b = false <-> b <= a.
Proof.
  unfold Qltb. rewrite negb_false_iff. apply Qle_bool_iff.
Qed.

Lemma widen_ordered e p : ordered e -> ordered (widen e p).
Proof.
  unfold ordered, widen. intros [Hx Hy]. simpl. split.
  - destruct (Qltb (pt_x p) (minX e)) eqn:E1; destruct (Qltb (maxX e) (pt_x p)) eqn:E2;
      rewrite ?Qltb_true, ?Qltb_false in *; lra.
  - destruct (Qltb (pt_y p) (minY e)) eqn:E1; destruct (Qltb (maxY e) (pt_y p)) eqn:E2;
      rewrite ?Qltb_true, ?Qltb_false in *; lra.
Qed.

Lemma fold_widen_ordered pts : forall e, ordered e -> ordered (fold_left widen pts e).
Proof.
  induction pts as [|p pts IH]; intros e He; simpl; [exact He|].
  apply IH, widen_ordered, He.
Qed.

Lemma fold_widen_x pts x0 : forall e,
  minX e == x0 -> maxX e == x0 -> (forall p, In p pts -> pt_x p == x0) ->
  minX (fold_left widen pts e) == x0 /\ maxX (fold_left widen pts e) == x0.
Proof.
  induction pts as [|p pts IH]; intros e Hmin Hmax Hall; simpl; [auto|].
  apply IH.
  - unfold widen. simpl. destruct (Qltb (pt_x p) (minX e)); [apply Hall; left|]; auto.
  - unfold widen. simpl. destruct (Qltb (maxX e) (pt_x p)); [apply Hall; left|]; auto.
  - intros q Hq. apply Hall. right. exact Hq.
Qed.

Lemma fold_widen_y pts y0 : forall e,
  minY e == y0 -> maxY e == y0 -> (forall p, In p pts -> pt_y p == y0) ->
  minY (fold_left widen pts e) == y0 /\ maxY (fold_left widen pts e) == y0.
Proof.
  induction pts as [|p pts IH]; intros e Hmin Hmax Hall; simpl; [auto|].
  apply IH.
  - unfold widen. simpl. destruct (Qltb (pt_y p) (minY e)); [apply Hall; left|]; auto.
  - unfold widen. simpl. destruct (Qltb (maxY e) (pt_y p)); [apply Hall; left|]; auto.
  - intros q Hq. apply Hall. right. exact Hq.
Qed.

Lemma calculateDataBoundingRect_cons p0 rest :
  calculateDataBoundingRect (p0 :: rest)
  = boxOf (fold_left widen (p0 :: rest)
             (mkExtremes (pt_x p0) (pt_x p0) (pt_y p0) (pt_y p0))).
Proof. reflexivity. Qed.

Lemma pick_positive (d : Q) : 0 <= d -> 0 < (if Qeq_bool d 0 then 1 else d).
Proof.
  intros Hd. destruct (Qeq_bool d 0) eqn:E; [reflexivity|].
  apply Qeq_bool_neq in E. apply Qle_lteq in Hd as [Hd|Hd]; [exact Hd|].
  exfalso. apply E. symmetry. exact Hd.
Qed.

Lemma pick_one (d : Q) : d == 1 -> (if Qeq_bool d 0 then 1 else d) == 1.
Proof.
  intros Hd. destruct (Qeq_bool d 0) eqn:E; [reflexivity|exact Hd].
Qed.

Lemma boxOf_positive e :
  ordered e -> 0 < rectf_width (boxOf e) /\ 0 < rectf_height (boxOf e).
Proof.
  intros [Hx Hy]. unfold boxOf.
  destruct (Qeq_bool (minX e) (maxX e)); destruct (Qeq_bool (minY e) (maxY e));
    simpl; split; apply pick_positive; lra.
Qed.

Lemma boxOf_shared_x e x0 :
  minX e == x0 -> maxX e == x0 ->
  rectf_left (boxOf e) == x0 - (1 # 2) /\ rectf_width (boxOf e) == 1.
Proof.
  intros Hmin Hmax. unfold boxOf.
  assert (E : Qeq_bool (minX e) (maxX e) = true).
  { apply Qeq_bool_iff. rewrite Hmin, Hmax. reflexivity. }
  rewrite E. destruct (Qeq_bool (minY e) (maxY e)); simpl;
    (split; [lra | apply pick_one; lra]).
Qed.

Lemma boxOf_shared_y e y0 :
  minY e == y0 -> maxY e == y0 ->
  rectf_top (boxOf e) == y0 - (1 # 2) /\ rectf_height (boxOf e) == 1.
Proof.
  intros Hmin Hmax. unfold boxOf.
  assert (E : Qeq_bool (minY e) (maxY e) = true).
  { apply Qeq_bool_iff. rewrite Hmin, Hmax. reflexivity. }
  rewrite E. destruct (Qeq_bool (minX e) (maxX e)); simpl;
    (split; [lra | apply pick_one; lra]).
Qed.

(** The bounding box of every point set has a positive width and height. *)
Lemma calculateDataBoundingRect_positive data :
  0 < rectf_width (calculateDataBoundingRect data)
  /\ 0 < rectf_height (calculateDataBoundingRect data).
Proof.
  destruct data as [|p0 rest]; [simpl; split; reflexivity|].
  rewrite calculateDataBoundingRect_cons. apply boxOf_positive.
  apply fold_widen_ordered. split; simpl; lra.
Qed.

End PlotFacts.

Section PlotClaims.
Import SimplePlotWidget.
Local Open Scope Q_scope.
Local Arguments calculateDataBoundingRect : simpl never.

Lemma Qle_bool_pos_false (d : Q) : 0 < d -> Qle_bool d 0 = false.
Proof.
  intros Hd. destruct (Qle_bool d 0) eqn:E; [|reflexivity].
  apply Qle_bool_iff in E. lra.
Qed.

Lemma Qeq_bool_pos_false (d : Q) : 0 < d -> Qeq_bool d 0 = false.
Proof.
  intros Hd. destruct (Qeq_bool d 0) eqn:E; [|reflexivity].
  apply Qeq_bool_iff in E. lra.
Qed.

(** No scale factor is ever computed with a zero divisor: painting after
    [setData] is defined for every point set and every widget size. *)
Lemma paintEvent_defined st data ids cm xl yl t :
  exists ops, paintEvent (setData data ids cm xl yl t st) = Some ops.
Proof.
  unfold paintEvent.
  destruct (negb _ || _ || _); [eauto|].
  simpl plotData. destruct data as [|p0 rest]; [eauto|].
  destruct (Qle_bool _ _ || Qle_bool _ _); [eauto|].
  destruct (calculateDataBoundingRect_positive (p0 :: rest)) as [Hw Hh].
  unfold divide. simpl dataBoundingRect.
  rewrite (Qeq_bool_pos_false _ Hw), (Qeq_bool_pos_false _ Hh). eauto.
Qed.

(** With a plot area of at least one pixel each way, painting a non-empty
    point set draws the frame and then one square per point, scaled by the
    plot area's size over the bounding box's size. *)
Lemma paintEvent_points st data ids cm xl yl t :
  data <> [] -> (1 <= width st - 80)%Z -> (1 <= height st - 80)%Z ->
  let w := setData data ids cm xl yl t st in
  let sx := inject_Z (rect_width (plotRect w)) / rectf_width (dataBoundingRect w) in
  let sy := inject_Z (rect_height (plotRect w)) / rectf_height (dataBoundingRect w) in
  paintEvent w = Some (frameOps w ++ imap (pointSquare w sx sy) data).
Proof.
  intros Hne Hw Hh w sx sy. unfold paintEvent.
  assert (Hr : negb (rect_isValid (plotRect w)) || (rect_width (plotRect w) <? 1)%Z
               || (rect_height (plotRect w) <? 1)%Z = false).
  { unfold rect_isValid, rect_right, rect_bottom, plotRect, marginLeft, marginRight,
      marginTop, marginBottom. simpl.
    rewrite !orb_false_iff, negb_false_iff, andb_true_iff, !Z.leb_le, !Z.ltb_ge. lia. }
  rewrite Hr. simpl plotData. destruct data as [|p0 rest]; [congruence|].
  destruct (calculateDataBoundingRect_positive (p0 :: rest)) as [Hbw Hbh].
  simpl dataBoundingRect.
  rewrite (Qle_bool_pos_false _ Hbw), (Qle_bool_pos_false _ Hbh).
  simpl orb. cbv iota. unfold divide.
  rewrite (Qeq_bool_pos_false _ Hbw), (Qeq_bool_pos_false _ Hbh).
  reflexivity.
Qed.

(** The part of C7 about a shared x: the box is widened by one half on
    each side to the width 1 and every point is drawn at the horizontal
    centre of the plot area. *)
Lemma shared_x_centred st data ids cm xl yl t x0 :
  data <> [] -> (forall p, In p data -> pt_x p == x0) ->
  let w := setData data ids cm xl yl t st in
  let sx := inject_Z (rect_width (plotRect w)) / rectf_width (dataBoundingRect w) in
  rectf_left (dataBoundingRect w) == x0 - (1 # 2)
  /\ rectf_width (dataBoundingRect w) == 1
  /\ forall sy p, In p data -> (transform w sx sy p).1 == plotCentreX w.
Proof.
  intros Hne Hall w sx.
  destruct data as [|p0 rest]; [congruence|].
  destruct (fold_widen_x (p0 :: rest) x0
              (mkExtremes (pt_x p0) (pt_x p0) (pt_y p0) (pt_y p0)))
    as [Hmin Hmax]; [apply Hall; left; reflexivity .. | exact Hall |].
  destruct (boxOf_shared_x _ x0 Hmin Hmax) as [Hleft Hwidth].
  rewrite <- calculateDataBoundingRect_cons in Hleft, Hwidth.
  split; [exact Hleft|]. split; [exact Hwidth|].
  intros sy p Hp. unfold transform, plotCentreX, plotRect.
  cbn [fst rect_left rect_width].
  subst sx. change (dataBoundingRect w) with (calculateDataBoundingRect (p0 :: rest)).
  rewrite Hleft, Hwidth, (Hall p Hp). unfold plotRect. cbn [rect_width]. field.
Qed.

(** C7, the part about a shared y, as the code has it. For every non-empty
    point set whose points share one y value, painted on a plot area of at
    least one pixel each way, the box is widened by one half on each side to
    the height 1, the scale factors are computed with non-zero divisors, and
    every point is drawn one pixel above the vertical centre of the plot
    area, because [paintEvent] measures from [plotRect.bottom()], which is
    [top + height - 1]. *)
Theorem C7_shared_y_one_above_centre st data ids cm xl yl t y0 :
  data <> [] -> (forall p, In p data -> pt_y p == y0) ->
  (1 <= width st - 80)%Z -> (1 <= height st - 80)%Z ->
  let w := setData data ids cm xl yl t st in
  let sx := inject_Z (rect_width (plotRect w)) / rectf_width (dataBoundingRect w) in
  let sy := inject_Z (rect_height (plotRect w)) / rectf_height (dataBoundingRect w) in
  rectf_top (dataBoundingRect w) == y0 - (1 # 2)
  /\ rectf_height (dataBoundingRect w) == 1
  /\ paintEvent w = Some (frameOps w ++ imap (pointSquare w sx sy) data)
  /\ forall p, In p data ->
       (transform w sx sy p).2 == plotCentreY w - 1
       /\ ~ (transform w sx sy p).2 == plotCentreY w.
Proof.
  intros Hne Hall Hw Hh w sx sy.
  pose proof (paintEvent_points st data ids cm xl yl t Hne Hw Hh) as Hpaint.
  destruct data as [|p0 rest]; [congruence|].
  destruct (fold_widen_y (p0 :: rest) y0
              (mkExtremes (pt_x p0) (pt_x p0) (pt_y p0) (pt_y p0)))
    as [Hmin Hmax]; [apply Hall; left; reflexivity .. | exact Hall |].
  destruct (boxOf_shared_y _ y0 Hmin Hmax) as [Htop Hheight].
  rewrite <- calculateDataBoundingRect_cons in Htop, Hheight.
  split; [exact Htop|]. split; [exact Hheight|]. split; [exact Hpaint|].
  intros p Hp.
  assert (Hy : (transform w sx sy p).2 == plotCentreY w - 1).
  { unfold transform, plotCentreY, rect_bottom, plotRect.
    cbn [snd rect_top rect_height].
    subst sy. change (dataBoundingRect w) with (calculateDataBoundingRect (p0 :: rest)).
    rewrite Htop, Hheight, (Hall p Hp). unfold plotRect. cbn [rect_height].
    unfold Z.sub at 1. rewrite !inject_Z_plus, inject_Z_opp.
    change (inject_Z 1) with 1. field. }
  split; [exact Hy|]. rewrite Hy. intros E. lra.
Qed.

Lemma C7_shared_y_one_above_centre_witness :
  let w := setData [mkQPointF 0 0] [] ∅ "x" "y" "plot" (init 180 180) in
  let sx := inject_Z (rect_width (plotRect w)) / rectf_width (dataBoundingRect w) in
  let sy := inject_Z (rect_height (plotRect w)) / rectf_height (dataBoundingRect w) in
  rectf_top (dataBoundingRect w) == 0 - (1 # 2)
  /\ rectf_height (dataBoundingRect w) == 1
  /\ paintEvent w = Some (frameOps w ++ imap (pointSquare w sx sy) [mkQPointF 0 0])
  /\ forall p, In p [mkQPointF 0 0] ->
       (transform w sx sy p).2 == plotCentreY w - 1
       /\ ~ (transform w sx sy p).2 == plotCentreY w.
Proof.
  apply (C7_shared_y_one_above_centre (init 180 180) [mkQPointF 0 0] [] ∅
           "x" "y" "plot" 0).
  - discriminate.
  - intros p [<-|[]]. reflexivity.
  - vm_compute. discriminate.
  - vm_compute. discriminate.
Defined.

(** The same input evaluated: on a widget of 180 by 180 the plot area is
    100 by 100 at (60, 30) and the one point (0, 0) is drawn at (110, 79),
    while the centre of the plot area is (110, 80). *)
Example paint_single_point :
  let w := setData [mkQPointF 0 0] [] ∅ "x" "y" "plot" (init 180 180) in
  plotRect w = mkQRect 60 30 100 100
  /\ paintEvent w
     = Some (frameOps w ++ [drawSquare (mkQRectF (864 # 8) (616 # 8) 4 4) Qt_gray])
  /\ (864 # 8) + 2 == 110 /\ (616 # 8) + 2 == 79
  /\ plotCentreX w == 110 /\ plotCentreY w == 80.
Proof.
  vm_compute. repeat split; intros; discriminate.
Qed.

End PlotClaims.

(** * Further properties of the CSV loader *)

Section LoaderMore.
Import CsvLoader.

(** [run] on a file that exists, opens and is not empty, written out by the
    reads of the cancellation flag. *)
Lemma run_readable_eq path f c :
  file_exists f = true -> file_opens f = true -> contents f <> EmptyString ->
  let h := (QTextStream.readLine (contents f)).1 in
  let rest := (QTextStream.readLine (contents f)).2 in
  if isCancelled c 0 then
    run path f c
    = Some (mkRunResult [progressUpdated 0 "Header loaded.";
                         errorOccurred "Loading cancelled by user."] 1)
  else
    exists st3,
      readRows (String.length rest) (fileSize f) c (afterHeader h rest) = Some st3
      /\ headers (csvData st3) = fields h
      /\ (exists ps, emitted st3 = progressUpdated 0 "Header loaded." :: ps
                     /\ Forall (fun s => isTerminal s = false) ps)
      /\ run path f c
         = Some (mkRunResult
                   (emitted st3 ++
                    (if isCancelled c (reads st3) then
                       [errorOccurred "Loading cancelled by user during row processing."]
                     else if rowsLoaded st3 =? 0 then [loadingFinished (csvData st3)]
                     else [progressUpdated 100
                             ("Finished loading " +:+ pretty (rowsLoaded st3)
                              +:+ " rows.");
                           loadingFinished (csvData st3)]))
                   (S (reads st3))).
Proof.
  intros Hex Hop Hne h rest. unfold run. rewrite Hex, Hop. simpl.
  destruct (QTextStream.atEnd (contents f)) eqn:Hend.
  { destruct (contents f); simpl in *; congruence. }
  simpl. subst h rest.
  destruct (QTextStream.readLine (contents f)) as [hl rest]. simpl.
  destruct (isCancelled c 0) eqn:Hc0; [reflexivity|].
  destruct (readRows_exit (String.length rest) (fileSize f) c (afterHeader hl rest))
    as (st3 & Hrun & Hh & _ & Hps); [reflexivity|].
  exists st3. split; [exact Hrun|]. split; [exact Hh|]. split; [exact Hps|].
  unfold afterHeader in Hrun. rewrite Hrun. simpl.
  destruct (isCancelled c (reads st3)); [reflexivity|].
  simpl in Hh. rewrite Hh.
  rewrite (bool_decide_eq_false_2 _ (fields_nonempty hl)).
  rewrite andb_false_r. simpl negb. rewrite andb_true_r.
  destruct (rowsLoaded st3 =? 0); unfold finish, emit; simpl.
  - reflexivity.
  - rewrite <- app_assoc. reflexivity.
Qed.

Lemma trimRight_idem s : QString.trimRight (QString.trimRight s) = QString.trimRight s.
Proof.
  induction s as [|c s IH]; simpl; [reflexivity|].
  destruct (QString.isSpace c && QString.isEmpty (QString.trimRight s)) eqn:E;
    [reflexivity|].
  simpl. rewrite IH, E. reflexivity.
Qed.

Lemma trimLeft_head s :
  match QString.trimLeft s with
  | EmptyString => True
  | String c _ => QString.isSpace c = false
  end.
Proof.
  induction s as [|c s IH]; simpl; [exact I|].
  destruct (QString.isSpace c) eqn:E; [exact IH|exact E].
Qed.

Lemma trimmed_idem s : QString.trimmed (QString.trimmed s) = QString.trimmed s.
Proof.
  unfold QString.trimmed. pose proof (trimLeft_head s) as Hh.
  destruct (QString.trimLeft s) as [|c u]; [reflexivity|].
  simpl. rewrite Hh. simpl. rewrite Hh. simpl. rewrite Hh. simpl.
  rewrite trimRight_idem. reflexivity.
Qed.

Lemma containsChar_trimLeft_false c s :
  QString.containsChar c s = false -> QString.containsChar c (QString.trimLeft s) = false.
Proof.
  induction s as [|d s IH]; simpl; [trivial|]. intros H.
  apply orb_false_iff in H as [Hd Hs].
  destruct (QString.isSpace d); [auto|]. simpl. rewrite Hd, Hs. reflexivity.
Qed.

Lemma containsChar_trimRight_false c s :
  QString.containsChar c s = false -> QString.containsChar c (QString.trimRight s) = false.
Proof.
  induction s as [|d s IH]; simpl; [trivial|]. intros H.
  apply orb_false_iff in H as [Hd Hs].
  destruct (QString.isSpace d && QString.isEmpty (QString.trimRight s)); [reflexivity|].
  simpl. rewrite Hd, (IH Hs). reflexivity.
Qed.

Lemma containsChar_trimmed_false c s :
  QString.containsChar c s = false -> QString.containsChar c (QString.trimmed s) = false.
Proof.
  intros H. unfold QString.trimmed.
  apply containsChar_trimRight_false, containsChar_trimLeft_false, H.
Qed.

(** No part of a split text holds the separator, nor any character that
    the text does not hold. *)
Lemma split_parts sep s :
  Forall (fun part => QString.containsChar sep part = false) (QString.split sep s)
  /\ forall c, QString.containsChar c s = false ->
       Forall (fun part => QString.containsChar c part = false) (QString.split sep s).
Proof.
  unfold QString.split. induction s as [|d s [IH1 IH2]]; simpl.
  - split; [|intros c _]; repeat constructor.
  - destruct (QString.split_ne sep s) as [hd tl].
    destruct (QString.eqc d sep) eqn:E.
    + split; [constructor; [reflexivity|exact IH1]|].
      intros c Hc. apply orb_false_iff in Hc as [_ Hc].
      constructor; [reflexivity|auto].
    + inversion IH1 as [|? ? Hhd Htl]; subst. split.
      * constructor; [simpl; rewrite E, Hhd; reflexivity|exact Htl].
      * intros c Hc. apply orb_false_iff in Hc as [Hd Hc].
        specialize (IH2 c Hc). inversion IH2 as [|? ? Hhd' Htl']; subst.
        constructor; [simpl; rewrite Hd, Hhd'; reflexivity|exact Htl'].
Qed.

Lemma readLine_no_newline s :
  QString.containsChar QString.newline (QTextStream.readLine s).1 = false.
Proof.
  induction s as [|c s IH]; simpl; [reflexivity|].
  destruct (QString.eqc c QString.newline) eqn:E; [reflexivity|].
  destruct (QTextStream.readLine s) as [l r]. simpl in *. rewrite E, IH. reflexivity.
Qed.

(** The cells made of a line that holds no line feed. *)
Lemma fields_clean line :
  QString.containsChar QString.newline line = false -> cleanRow (fields line).
Proof.
  intros Hnl. split; [apply fields_nonempty|].
  unfold fields. apply Forall_map.
  destruct (split_parts QString.comma line) as [Hsep Hother].
  specialize (Hother _ Hnl).
  induction Hsep as [|part parts Hp _ IH]; [constructor|].
  inversion Hother as [|? ? Hn Hrest]; subst.
  constructor; [|exact (IH Hrest)].
  split; [apply trimmed_idem|].
  split; apply containsChar_trimmed_false; assumption.
Qed.

Lemma readRows_clean fuel fs c : forall st st',
  Forall cleanRow (rows (csvData st)) ->
  readRows fuel fs c st = Some st' ->
  Forall cleanRow (rows (csvData st')).
Proof.
  induction fuel as [|fuel IH]; intros st st' Hst; simpl.
  - destruct (negb _ && _); [discriminate|]. intros [= <-]. exact Hst.
  - destruct (negb _ && _); [|intros [= <-]; exact Hst].
    destruct (isCancelled c (reads st)); [intros [= <-]; exact Hst|].
    set (st1 := mkRunState _ _ _ _ (S (reads st)) _).
    apply IH.
    destruct (readRow_spec fs st1) as (_ & _ & _ & Hrows & _).
    rewrite Hrows. apply Forall_app. split; [exact Hst|].
    constructor; [|constructor]. apply fields_clean, readLine_no_newline.
Qed.

(** [run] on a file that is missing, does not open or is empty. *)
Lemma run_unreadable_eq path f c :
  file_exists f = false \/ file_opens f = false \/ contents f = EmptyString ->
  exists m, run path f c = Some (mkRunResult [errorOccurred m] 0)
            /\ (m = "File not found: " +:+ path
                \/ m = "Failed to open file: " +:+ path +:+ ". Error: " +:+ errorString f
                \/ m = "File is empty or header could not be read.").
Proof.
  intros H. unfold run.
  destruct (file_exists f); simpl; [|eauto].
  destruct (file_opens f); simpl; [|eauto 6].
  destruct H as [H|[H|H]]; try discriminate.
  rewrite H. simpl. eauto 6.
Qed.

Lemma readable_dec f :
  (file_exists f = true /\ file_opens f = true /\ contents f <> EmptyString)
  \/ (file_exists f = false \/ file_opens f = false \/ contents f = EmptyString).
Proof.
  destruct (file_exists f); [|auto]. destruct (file_opens f); [|auto].
  destruct (contents f); [auto|]. left. repeat split; discriminate.
Qed.

Lemma not_in_progress (s : Signal) (ps : list Signal) :
  isTerminal s = true -> Forall (fun x => isTerminal x = false) ps -> ~ In s ps.
Proof.
  intros Hs Hps Hin. rewrite Forall_forall in Hps.
  apply list_elem_of_In, Hps in Hin. congruence.
Qed.

(** X1. The error "No data loaded from CSV." of line 88 is never emitted,
    whatever the file and whenever the cancellation: by the time its test
    is reached a header line has been split, and a split yields at least
    one header. *)
Theorem run_never_no_data path f c :
  exists r, run path f c = Some r
            /\ ~ In (errorOccurred "No data loaded from CSV.") (signals r).
Proof.
  destruct (readable_dec f) as [(Hex & Hop & Hne)|Hbad].
  - pose proof (run_readable_eq path f c Hex Hop Hne) as H. simpl in H.
    destruct (isCancelled c 0).
    + eexists; split; [exact H|]. simpl. intros [E|[E|[]]]; discriminate.
    + destruct H as (st3 & Hrows & _ & (ps & He & Hps) & Hrun).
      eexists; split; [exact Hrun|]. simpl.
      rewrite He. simpl. intros [E|Hin]; [discriminate|].
      apply in_app_or in Hin as [Hin|Hin].
      * revert Hin. apply not_in_progress; [reflexivity|exact Hps].
      * destruct (isCancelled c (reads st3)); [|destruct (rowsLoaded st3 =? 0)];
          simpl in Hin; intuition discriminate.
  - destruct (run_unreadable_eq path f c Hbad) as (m & Hrun & Hm).
    eexists; split; [exact Hrun|]. simpl. intros [E|[]].
    injection E as E. destruct Hm as [-> | [-> | ->]]; discriminate.
Qed.

(** X2. For a file that exists, opens and is not empty, the load delivers a
    table exactly when no read of the cancellation flag made by the run
    returned true. *)
Theorem run_success_iff_not_cancelled path f c :
  file_exists f = true -> file_opens f = true -> contents f <> EmptyString ->
  exists r, run path f c = Some r
            /\ ((exists data, In (loadingFinished data) (signals r))
                <-> forall k, (k < polls r)%nat -> isCancelled c k = false).
Proof.
  intros Hex Hop Hne.
  pose proof (run_readable_eq path f c Hex Hop Hne) as H. simpl in H.
  destruct (isCancelled c 0) eqn:Hc0.
  - eexists; split; [exact H|]. simpl. split.
    + intros (data & [E|[E|[]]]); discriminate.
    + intros Hall. specialize (Hall 0%nat ltac:(lia)). congruence.
  - destruct H as (st3 & Hrows & _ & (ps & He & Hps) & Hrun).
    eexists; split; [exact Hrun|]. simpl.
    destruct (isCancelled c (reads st3)) eqn:Hc3.
    + split.
      * intros (data & Hin). exfalso. apply in_app_or in Hin as [Hin|[E|[]]];
          [|discriminate].
        rewrite He in Hin. simpl in Hin. destruct Hin as [E|Hin]; [discriminate|].
        revert Hin. apply not_in_progress; [reflexivity|exact Hps].
      * intros Hall. specialize (Hall (reads st3) ltac:(lia)). congruence.
    + split.
      * intros _ k Hk. destruct (isCancelled c k) eqn:Ek; [|reflexivity].
        apply (isCancelled_mono c k (reads st3)) in Ek; [congruence|lia].
      * intros _. exists (csvData st3). apply in_or_app. right.
        destruct (rowsLoaded st3 =? 0); simpl; auto.
Qed.

Lemma run_success_iff_not_cancelled_witness :
  exists r,
    run "data.csv"
        (mkQFile true true EmptyString 16
                 ("id,name" +:+ MainWindow.nl +:+ "1,a" +:+ MainWindow.nl)) (Some 5%nat)
    = Some r
    /\ ((exists data, In (loadingFinished data) (signals r))
        <-> forall k, (k < polls r)%nat -> isCancelled (Some 5%nat) k = false).
Proof.
  apply (run_success_iff_not_cancelled "data.csv"
           (mkQFile true true EmptyString 16
                    ("id,name" +:+ MainWindow.nl +:+ "1,a" +:+ MainWindow.nl))
           (Some 5%nat)); [reflexivity|reflexivity|discriminate].
Defined.

(** X3. Every table that a run delivers is clean: the header list and every
    row have at least one cell, and no cell, header or data, starts or ends
    with whitespace or holds a comma or a line feed. *)
Theorem loaded_table_clean path f c r data :
  run path f c = Some r -> In (loadingFinished data) (signals r) ->
  cleanRow (headers data) /\ Forall cleanRow (rows data).
Proof.
  intros Hr Hin.
  destruct (readable_dec f) as [(Hex & Hop & Hne)|Hbad].
  - pose proof (run_readable_eq path f c Hex Hop Hne) as H. simpl in H.
    destruct (isCancelled c 0).
    { rewrite H in Hr. injection Hr as <-. simpl in Hin.
      destruct Hin as [E|[E|[]]]; discriminate. }
    destruct H as (st3 & Hrows & Hh & (ps & He & Hps) & Hrun).
    rewrite Hrun in Hr. injection Hr as <-. simpl in Hin.
    assert (Hdata : data = csvData st3).
    { apply in_app_or in Hin as [Hin|Hin].
      - exfalso. rewrite He in Hin. simpl in Hin. destruct Hin as [E|Hin]; [discriminate|].
        revert Hin. apply not_in_progress; [reflexivity|exact Hps].
      - destruct (isCancelled c (reads st3)); [|destruct (rowsLoaded st3 =? 0)];
          simpl in Hin; intuition congruence. }
    subst data. split.
    + rewrite Hh. apply fields_clean, readLine_no_newline.
    + eapply readRows_clean; [|exact Hrows]. constructor.
  - destruct (run_unreadable_eq path f c Hbad) as (m & Hrun & _).
    rewrite Hrun in Hr. injection Hr as <-. simpl in Hin.
    destruct Hin as [E|[]]. discriminate.
Qed.

Lemma loaded_table_clean_witness :
  cleanRow [ "id"; "full name" ]
  /\ Forall cleanRow [ [ "1"; "Ada L" ]; [ EmptyString ]; [ "2" ] ].
Proof.
  apply (loaded_table_clean "data.csv"
           (mkQFile true true EmptyString 30
                    (" id , full name " +:+ MainWindow.nl +:+ "1,  Ada L"
                     +:+ MainWindow.nl +:+ MainWindow.nl +:+ " 2 "))
           None
           (mkRunResult [progressUpdated 0 "Header loaded.";
                         progressUpdated 100 "Finished loading 3 rows.";
                         loadingFinished
                           (mkCsvData [ "id"; "full name" ]
                                      [ [ "1"; "Ada L" ]; [ EmptyString ]; [ "2" ] ])] 5)
           (mkCsvData [ "id"; "full name" ]
                      [ [ "1"; "Ada L" ]; [ EmptyString ]; [ "2" ] ])).
  - vm_compute. reflexivity.
  - simpl. auto.
Defined.

(** A property of the loop state that holds before the loop and is kept by
    a read of the flag and by the reading of a row holds after the loop. *)
Lemma readRows_invariant (P : RunState -> Prop) fs c :
  (forall st, P st -> P (pollCancelled c st).2) ->
  (forall st, P st -> st_in st <> EmptyString -> P (readRow fs st)) ->
  forall fuel st st', P st -> readRows fuel fs c st = Some st' -> P st'.
Proof.
  intros Hpoll Hrow. induction fuel as [|fuel IH]; intros st st' Hst; simpl.
  - destruct (negb _ && _); [discriminate|]. intros [= <-]. exact Hst.
  - destruct (negb (QTextStream.atEnd (st_in st)) && _) eqn:Hc;
      [|intros [= <-]; exact Hst].
    apply andb_true_iff in Hc as [Hne _]. apply negb_true_iff, atEnd_false in Hne.
    pose proof (Hpoll st Hst) as H1. unfold pollCancelled in H1. simpl in H1.
    destruct (isCancelled c (reads st)); [intros [= <-]; exact H1|].
    apply IH. apply Hrow; [exact H1|exact Hne].
Qed.

Lemma progressValues_app l1 l2 :
  progressValues (l1 ++ l2) = progressValues l1 ++ progressValues l2.
Proof. unfold progressValues. apply omap_app. Qed.

Lemma progressValues_none ps :
  Forall (fun s => isTerminal s = true) ps -> progressValues ps = [].
Proof.
  induction 1 as [|s ps Hs _ IH]; [reflexivity|].
  destruct s; simpl in *; try discriminate; exact IH.
Qed.

(** The text consumed by [readLine]: the line and its line feed, or, at the
    end of a text without a final line feed, the line alone. *)
Lemma readLine_length s :
  let '(line, rest) := QTextStream.readLine s in
  (String.length line + String.length rest + 1 = String.length s)%nat
  \/ (rest = EmptyString /\ String.length line = String.length s).
Proof.
  induction s as [|c s IH]; simpl; [auto|].
  destruct (QString.eqc c QString.newline); [left; simpl; lia|].
  destruct (QTextStream.readLine s) as [l r]. simpl.
  destruct IH as [IH|[-> IH]]; [left|right]; auto; lia.
Qed.

Lemma static_cast_int_small z : 0 <= z < 2147483648 -> static_cast_int z = z.
Proof.
  intros Hz. unfold static_cast_int. rewrite Z.mod_small; lia.
Qed.

Lemma readRow_bytesInv L fs st :
  bytesInv L fs st -> st_in st <> EmptyString -> bytesInv L fs (readRow fs st).
Proof.
  intros (Hb0 & Hb & Hle & Hge) Hne. unfold readRow.
  pose proof (readLine_length (st_in st)) as Hlen.
  destruct (QTextStream.readLine (st_in st)) as [line rest].
  assert (Hone : QString.isEmpty (st_in st) = false)
    by (destruct (st_in st); [congruence|reflexivity]).
  rewrite Hone in Hb. unfold QString.size.
  assert (Hb' : 0 <= bytesRead st + (Z.of_nat (String.length line) + 1)
                /\ bytesRead st + (Z.of_nat (String.length line) + 1)
                   + Z.of_nat (String.length rest)
                   <= L + (if QString.isEmpty rest then 1 else 0)).
  { destruct Hlen as [Hlen|[-> Hlen]]; simpl;
      [destruct (QString.isEmpty rest)|]; lia. }
  destruct Hb' as [Hb0' Hb'].
  destruct (Z.rem (rowsLoaded st + 1) 1000 =? 0); unfold bytesInv; simpl.
  2:{ repeat split; auto; lia. }
  rewrite progressValues_app. simpl.
  set (b := bytesRead st + (Z.of_nat (String.length line) + 1)) in *.
  set (pct := if 0 <? fs then static_cast_int (Z.quot (b * 100) fs) else 0).
  repeat split; auto; try lia.
  - apply Forall_app. split; [exact Hle|]. constructor; [|constructor].
    destruct (100 <? pct) eqn:E; [lia|]. apply Z.ltb_ge in E. exact E.
  - intros HL. apply Forall_app. split; [auto|]. constructor; [|constructor].
    assert (Hpct : 0 <= pct).
    { subst pct. destruct (0 <? fs) eqn:Ef; [|lia]. apply Z.ltb_lt in Ef.
      assert (Hbfs : b <= fs + 1).
      { destruct (QString.isEmpty rest); lia. }
      assert (Hq : 0 <= Z.quot (b * 100) fs <= 200).
      { rewrite Z.quot_div_nonneg by lia. split.
        - apply Z.div_pos; lia.
        - apply Z.div_le_upper_bound; nia. }
      rewrite static_cast_int_small; lia. }
    destruct (100 <? pct); lia.
Qed.

(** X4. No progress report of any run shows more than 100 percent, and
    when the file size that [QFile] reports is at least the number of
    characters of the text, none shows less than 0. *)
Theorem progress_within_bounds path f c :
  exists r, run path f c = Some r
    /\ Forall (fun v => v <= 100) (progressValues (signals r))
    /\ (Z.of_nat (String.length (contents f)) <= fileSize f ->
        Forall (fun v => 0 <= v) (progressValues (signals r))).
Proof.
  destruct (readable_dec f) as [(Hex & Hop & Hne)|Hbad].
  - pose proof (run_readable_eq path f c Hex Hop Hne) as H. simpl in H.
    destruct (isCancelled c 0).
    { eexists; split; [exact H|]. simpl. split; [|intros _]; repeat constructor; lia. }
    destruct H as (st3 & Hrows & _ & _ & Hrun).
    eexists; split; [exact Hrun|]. simpl.
    assert (Hinv : bytesInv (Z.of_nat (String.length (contents f))) (fileSize f) st3).
    { eapply (readRows_invariant (bytesInv _ (fileSize f))); [| |
        |exact Hrows].
      - intros st Hst. exact Hst.
      - apply readRow_bytesInv.
      - unfold bytesInv, afterHeader. simpl.
        pose proof (readLine_length (contents f)) as Hlen.
        destruct (QTextStream.readLine (contents f)) as [line rest]. simpl.
        unfold QString.size.
        repeat split; try (repeat constructor; lia); try lia.
        destruct Hlen as [Hlen|[-> Hlen]]; simpl;
          [destruct (QString.isEmpty rest)|]; lia. }
    destruct Hinv as (_ & _ & Hle & Hge).
    rewrite progressValues_app.
    assert (Htail : forall l,
               l = progressValues
                     (if isCancelled c (reads st3) then
                        [errorOccurred "Loading cancelled by user during row processing."]
                      else if rowsLoaded st3 =? 0 then [loadingFinished (csvData st3)]
                      else [progressUpdated 100
                              ("Finished loading " +:+ pretty (rowsLoaded st3)
                               +:+ " rows.");
                            loadingFinished (csvData st3)]) ->
               l = [] \/ l = [100]).
    { intros l ->. destruct (isCancelled c (reads st3)); [|destruct (rowsLoaded st3 =? 0)];
        simpl; auto. }
    destruct (Htail _ eq_refl) as [-> | ->]; split;
      try (intros HL; specialize (Hge HL)); apply Forall_app; split; auto;
      repeat constructor; lia.
  - destruct (run_unreadable_eq path f c Hbad) as (m & Hrun & _).
    eexists; split; [exact Hrun|]. simpl. split; [|intros _]; constructor.
Qed.

Lemma progress_within_bounds_witness :
  exists r,
    run "data.csv"
        (mkQFile true true EmptyString 16
                 ("id,name" +:+ MainWindow.nl +:+ "1,a" +:+ MainWindow.nl)) None
    = Some r
    /\ Forall (fun v => 0 <= v <= 100) (progressValues (signals r)).
Proof.
  destruct (progress_within_bounds "data.csv"
              (mkQFile true true EmptyString 16
                       ("id,name" +:+ MainWindow.nl +:+ "1,a" +:+ MainWindow.nl)) None)
    as (r & Hrun & Hle & Hge).
  exists r. split; [exact Hrun|].
  specialize (Hge ltac:(vm_compute; discriminate)).
  rewrite Forall_forall in *. intros v Hv. split; auto.
Defined.

Lemma readRow_countInv fs st : countInv st -> countInv (readRow fs st).
Proof.
  intros (Hn & Hp). unfold readRow.
  destruct (QTextStream.readLine (st_in st)) as [line rest].
  assert (H0 : 0 <= rowsLoaded st) by lia.
  rewrite Z.rem_mod_nonneg by lia.
  destruct (Z.eqb_spec ((rowsLoaded st + 1) mod 1000) 0) as [E|E];
    unfold countInv; simpl; rewrite ?progressValues_app, ?length_app; simpl;
    (split; [lia|]).
  - rewrite Nat2Z.inj_add, Hp. simpl. Z.div_mod_to_equations. lia.
  - rewrite Hp. Z.div_mod_to_equations. lia.
Qed.

(** X5. A run that delivers a table of [N] rows has made one progress
    report for the header, one after every 1000th row, and a last one when
    [N] is not 0. *)
Theorem progress_report_count path f c r data :
  run path f c = Some r -> In (loadingFinished data) (signals r) ->
  let N := Z.of_nat (length (rows data)) in
  Z.of_nat (length (progressValues (signals r)))
  = 1 + N / 1000 + (if N =? 0 then 0 else 1).
Proof.
  intros Hr Hin N.
  destruct (readable_dec f) as [(Hex & Hop & Hne)|Hbad].
  - pose proof (run_readable_eq path f c Hex Hop Hne) as H. simpl in H.
    destruct (isCancelled c 0).
    { rewrite H in Hr. injection Hr as <-. simpl in Hin.
      destruct Hin as [E|[E|[]]]; discriminate. }
    destruct H as (st3 & Hrows & Hh & (ps & He & Hps) & Hrun).
    rewrite Hrun in Hr. injection Hr as <-. simpl in Hin. simpl signals.
    assert (Hinv : countInv st3).
    { eapply (readRows_invariant countInv); [| | |exact Hrows].
      - intros st Hst. exact Hst.
      - intros st Hst _. apply readRow_countInv, Hst.
      - split; reflexivity. }
    destruct Hinv as (Hn & Hp).
    apply in_app_or in Hin as [Hin|Hin].
    { exfalso. rewrite He in Hin. simpl in Hin. destruct Hin as [E|Hin]; [discriminate|].
      revert Hin. apply not_in_progress; [reflexivity|exact Hps]. }
    rewrite progressValues_app, length_app, Nat2Z.inj_add, Hp.
    destruct (isCancelled c (reads st3)).
    { simpl in Hin. destruct Hin as [E|[]]. discriminate. }
    assert (HN : N = rowsLoaded st3).
    { subst N. destruct (rowsLoaded st3 =? 0); simpl in Hin;
        intuition (try discriminate); congruence. }
    rewrite HN. destruct (rowsLoaded st3 =? 0); simpl; lia.
  - destruct (run_unreadable_eq path f c Hbad) as (m & Hrun & _).
    rewrite Hrun in Hr. injection Hr as <-. simpl in Hin.
    destruct Hin as [E|[]]. discriminate.
Qed.

Lemma progress_report_count_witness :
  Z.of_nat (length (progressValues
                      [progressUpdated 0 "Header loaded.";
                       progressUpdated 100 "Finished loading 2 rows.";
                       loadingFinished (mkCsvData ["id"] [["1"]; ["2"]])]))
  = 1 + Z.of_nat (length (rows (mkCsvData ["id"] [["1"]; ["2"]]))) / 1000
    + (if Z.of_nat (length (rows (mkCsvData ["id"] [["1"]; ["2"]]))) =? 0
       then 0 else 1).
Proof.
  apply (progress_report_count "data.csv"
           (mkQFile true true EmptyString 7
                    ("id" +:+ MainWindow.nl +:+ "1" +:+ MainWindow.nl +:+ "2"
                     +:+ MainWindow.nl))
           None
           (mkRunResult [progressUpdated 0 "Header loaded.";
                         progressUpdated 100 "Finished loading 2 rows.";
                         loadingFinished (mkCsvData ["id"] [["1"]; ["2"]])] 4)).
  - vm_compute. reflexivity.
  - simpl. auto.
Defined.

End LoaderMore.

(** * Further properties of the export *)

Section ExportMore.
Import MainWindow.

Lemma append_assoc_s (a b c : string) : (a +:+ b) +:+ c = a +:+ b +:+ c.
Proof.
  induction a as [|x a IH]; [reflexivity|].
  change (String x ((a +:+ b) +:+ c) = String x (a +:+ b +:+ c)).
  rewrite IH. reflexivity.
Qed.

Lemma exportField_plain f :
  QString.containsChar QString.comma f = false ->
  QString.containsChar QString.dquote f = false ->
  QString.containsChar QString.newline f = false ->
  exportField f = f.
Proof. intros H1 H2 H3. unfold exportField. rewrite H1, H2, H3. reflexivity. Qed.

Lemma join_cons2 sep x y tl :
  QString.join (String sep EmptyString) (x :: y :: tl)
  = x +:+ String sep (QString.join (String sep EmptyString) (y :: tl)).
Proof. reflexivity. Qed.

(** Splitting undoes joining when no part holds the separator. *)
Lemma split_join sep row :
  row <> [] -> Forall (fun cell => QString.containsChar sep cell = false) row ->
  QString.split sep (QString.join (String sep EmptyString) row) = row.
Proof.
  intros Hne Hall. induction Hall as [|x tl Hx Htl IH]; [congruence|].
  destruct tl as [|y tl].
  - simpl. apply split_no_sep, Hx.
  - rewrite join_cons2, split_app by exact Hx. rewrite IH by discriminate. reflexivity.
Qed.

Lemma containsChar_join c sep row :
  QString.eqc sep c = false ->
  Forall (fun cell => QString.containsChar c cell = false) row ->
  QString.containsChar c (QString.join (String sep EmptyString) row) = false.
Proof.
  intros Hsep Hall. induction Hall as [|x tl Hx Htl IH]; [reflexivity|].
  destruct tl as [|y tl]; [exact Hx|].
  rewrite join_cons2, containsChar_app, Hx. simpl. rewrite Hsep. exact IH.
Qed.

Lemma textLines_app_line l rest :
  QString.containsChar QString.newline l = false ->
  textLines (l +:+ String QString.newline rest) = l :: textLines rest.
Proof.
  induction l as [|c l IH]; simpl.
  - intros _. reflexivity.
  - intros H. apply orb_false_iff in H as [Hc Hl]. rewrite Hc, (IH Hl). reflexivity.
Qed.

Lemma line_append l rest : (l +:+ nl) +:+ rest = l +:+ String QString.newline rest.
Proof. rewrite append_assoc_s. reflexivity. Qed.

Lemma textLines_lines ls :
  Forall (fun l => QString.containsChar QString.newline l = false) ls ->
  textLines (fold_right String.append EmptyString (map (fun l => l +:+ nl) ls)) = ls.
Proof.
  induction 1 as [|l ls Hl _ IH]; [reflexivity|].
  cbn [map fold_right]. rewrite line_append.
  rewrite textLines_app_line by exact Hl. rewrite IH. reflexivity.
Qed.

Lemma fields_join row :
  row <> [] -> Forall plainCell row ->
  CsvLoader.fields (QString.join "," row) = row.
Proof.
  intros Hne Hall. unfold CsvLoader.fields.
  change "," with (String QString.comma EmptyString).
  rewrite split_join; [|exact Hne|].
  - induction Hall as [|x tl (Hx & _) _ IH]; [reflexivity|].
    simpl. rewrite Hx. f_equal. destruct tl; [reflexivity|]. apply IH. discriminate.
  - eapply Forall_impl; [exact Hall|]. intros x (_ & Hx & _). exact Hx.
Qed.

Lemma join_plain_no_newline row :
  Forall plainCell row ->
  QString.containsChar QString.newline (QString.join "," row) = false.
Proof.
  intros Hall. change "," with (String QString.comma EmptyString).
  apply containsChar_join; [reflexivity|].
  eapply Forall_impl; [exact Hall|]. intros x (_ & _ & _ & Hx). exact Hx.
Qed.

Lemma map_exportField_plain row :
  Forall plainCell row -> map exportField row = row.
Proof.
  induction 1 as [|x tl (_ & H1 & H2 & H3) _ IH]; [reflexivity|].
  simpl. rewrite exportField_plain, IH by assumption. reflexivity.
Qed.

(** X6. Export and load are inverse on plain tables: when the displayed
    table has at most 50000 rows, at least one row, header and cell per row,
    and no header or cell that trimming would change or that holds a comma,
    a double quote or a line feed, the exported text, loaded again without a
    cancellation, delivers the displayed table itself. *)
Theorem export_then_load path inpath sz w :
  let d := currentlyDisplayedData w in
  QString.isEmpty path = false ->
  rows d <> [] -> headers d <> [] ->
  Forall plainCell (headers d) ->
  Forall (fun row => row <> [] /\ Forall plainCell row) (rows d) ->
  Z.of_nat (length (rows d)) <= CsvLoader.MAX_ROWS_TO_LOAD ->
  exists text pre n,
    exportFilteredData w path true = Exported path text
    /\ CsvLoader.run inpath (CsvLoader.mkQFile true true EmptyString sz text) None
       = Some (CsvLoader.mkRunResult (pre ++ [CsvLoader.loadingFinished d]) n).
Proof.
  intros d Hpath Hrows Hhead Hh Hr Hmax.
  unfold exportFilteredData. fold d.
  destruct (rows d) as [|row0 rest] eqn:Erows; [congruence|].
  rewrite Hpath. simpl negb. cbv iota.
  eexists. 
  assert (Hmap : map (fun row => QString.join "," (map exportField row) +:+ nl)
                     (row0 :: rest)
                 = map (fun l => l +:+ nl) (map (QString.join ",") (row0 :: rest))).
  { rewrite map_map. apply map_ext_in. intros row Hin.
    rewrite Forall_forall in Hr.
    destruct (Hr row (proj2 (list_elem_of_In _ _) Hin)) as [_ Hp].
    rewrite map_exportField_plain by exact Hp. reflexivity. }
  rewrite Hmap.
  assert (Hlines :
            textLines ((QString.join "," (headers d) +:+ nl)
                       +:+ fold_right String.append EmptyString
                             (map (fun l => l +:+ nl)
                                  (map (QString.join ",") (row0 :: rest))))
            = QString.join "," (headers d) :: map (QString.join ",") (row0 :: rest)).
  { rewrite line_append.
    rewrite textLines_app_line by (apply join_plain_no_newline, Hh).
    rewrite textLines_lines; [reflexivity|].
    apply Forall_map. eapply Forall_impl; [exact Hr|].
    intros row [_ Hp]. apply join_plain_no_newline, Hp. }
  destruct (run_uncancelled inpath
              (CsvLoader.mkQFile true true EmptyString sz _) _ _ eq_refl eq_refl Hlines)
    as (pre & n & Hrun & _).
  exists pre, n. split; [reflexivity|]. rewrite Hrun. do 4 f_equal.
  rewrite fields_join by assumption.
  rewrite take_ge by (rewrite length_map; unfold CsvLoader.MAX_ROWS_TO_LOAD in *; lia).
  rewrite map_map.
  replace (map (fun x => CsvLoader.fields (QString.join "," x)) (row0 :: rest))
    with (row0 :: rest).
  - clear -Erows. subst d. destruct (currentlyDisplayedData w) as [hs rs].
    simpl in *. congruence.
  - symmetry. rewrite <- (map_id (row0 :: rest)) at 2. apply map_ext_in.
    intros row Hin. rewrite Forall_forall in Hr.
    destruct (Hr row (proj2 (list_elem_of_In _ _) Hin)) as [Hne Hp].
    apply fields_join; assumption.
Qed.

Lemma export_then_load_witness :
  exists text pre n,
    exportFilteredData
      (windowWith (mkCsvData ["id"; "name"] [["1"; "a b"]; ["2"; EmptyString]]) [])
      "out.csv" true
    = Exported "out.csv" text
    /\ CsvLoader.run "in.csv" (CsvLoader.mkQFile true true EmptyString 20 text) None
       = Some (CsvLoader.mkRunResult
                 (pre ++ [CsvLoader.loadingFinished
                            (mkCsvData ["id"; "name"] [["1"; "a b"]; ["2"; EmptyString]])])
                 n).
Proof.
  apply (export_then_load "out.csv" "in.csv" 20
           (windowWith (mkCsvData ["id"; "name"] [["1"; "a b"]; ["2"; EmptyString]]) [])).
  - reflexivity.
  - discriminate.
  - discriminate.
  - repeat constructor.
  - repeat constructor; discriminate.
  - vm_compute. discriminate.
Defined.

Lemma countChar_app c a b : countChar c (a +:+ b) = (countChar c a + countChar c b)%nat.
Proof.
  induction a as [|d a IH]; [reflexivity|].
  change (String d a +:+ b) with (String d (a +:+ b)). simpl. rewrite IH. lia.
Qed.

Lemma length_split sep s : length (QString.split sep s) = S (countChar sep s).
Proof.
  unfold QString.split. induction s as [|d s IH]; [reflexivity|]. simpl.
  destruct (QString.split_ne sep s) as [hd tl].
  destruct (QString.eqc d sep); simpl in *; lia.
Qed.

Lemma countChar_replace_dquote s :
  countChar QString.comma
    (QString.replaceChar QString.dquote (String QString.dquote (String QString.dquote EmptyString)) s)
  = countChar QString.comma s.
Proof.
  induction s as [|d s IH]; [reflexivity|]. simpl.
  destruct (QString.eqc d QString.dquote) eqn:E.
  - apply Ascii.eqb_eq in E. subst d.
    change (String QString.dquote (String QString.dquote EmptyString) +:+ ?r)
      with (String QString.dquote (String QString.dquote r)).
    simpl. exact IH.
  - simpl. rewrite IH. reflexivity.
Qed.

Lemma countChar_exportField f :
  countChar QString.comma (exportField f) = countChar QString.comma f.
Proof.
  unfold exportField. destruct (_ || _ || _); [|reflexivity].
  rewrite !countChar_app. simpl. rewrite countChar_replace_dquote. lia.
Qed.

Lemma countChar_comma_cons r :
  countChar QString.comma (String QString.comma r) = S (countChar QString.comma r).
Proof. reflexivity. Qed.

Lemma countChar_join row :
  row <> [] ->
  countChar QString.comma (QString.join "," row) = (length row - 1 + commasIn row)%nat.
Proof.
  intros Hne. induction row as [|x tl IH]; [congruence|].
  destruct tl as [|y tl]; [simpl; lia|].
  change (QString.join "," (x :: y :: tl))
    with (x +:+ String QString.comma (QString.join "," (y :: tl))).
  rewrite countChar_app, countChar_comma_cons, IH by discriminate.
  simpl. lia.
Qed.

Lemma commasIn_map_exportField row : commasIn (map exportField row) = commasIn row.
Proof.
  induction row as [|x tl IH]; [reflexivity|].
  simpl. rewrite countChar_exportField, IH. reflexivity.
Qed.

(** X7. Quoting does not protect commas from the loader: the line that the
    export writes for a row with at least one cell is read back as a row
    with one cell more for every comma in the cells of the written row. *)
Theorem exported_row_reloaded_length row :
  row <> [] ->
  length (CsvLoader.fields (QString.join "," (map exportField row)))
  = (length row + commasIn row)%nat.
Proof.
  intros Hne. unfold CsvLoader.fields.
  rewrite length_map, length_split, countChar_join by (destruct row; [congruence|discriminate]).
  rewrite length_map, commasIn_map_exportField.
  destruct row; [congruence|]. simpl. lia.
Qed.

Lemma exported_row_reloaded_length_witness :
  length (CsvLoader.fields (QString.join "," (map exportField ["1"; "Lovelace, Ada"])))
  = (length ["1"; "Lovelace, Ada"] + commasIn ["1"; "Lovelace, Ada"])%nat.
Proof.
  apply (exported_row_reloaded_length ["1"; "Lovelace, Ada"]). discriminate.
Defined.

End ExportMore.

(** * Further properties of the row filters *)

Section FilterMore.
Context `{TD : ToDouble} {TL : ToDoubleLaws TD}.
Import MainWindow.

Lemma number_head s v :
  toDouble s = Some v ->
  exists d s', s = String d s' /\ forall c, filterMeta c = true -> QString.eqc d c = false.
Proof.
  intros Hs. destruct s as [|d s'].
  - rewrite toDouble_empty in Hs. discriminate.
  - exists d, s'. split; [reflexivity|]. intros c Hc.
    pose proof (toDouble_no_meta _ _ c Hs Hc) as Hn. simpl in Hn.
    apply orb_false_iff in Hn as [Hd _]. exact Hd.
Qed.

(** X8. A comparison filter against a numeric cell: when the text after the
    comparison sign is the number [n] and the cell is the number [v], the
    cell matches [>=n], [<=n], [>n], [<n] exactly when [v] stands in that
    relation to [n], and matches [=n] as well as [==n] exactly when [v]
    equals [n]. *)
Theorem comparison_filters cell snum v n :
  toDouble cell = Some v -> toDouble snum = Some n ->
  (filterMatches cell (">=" +:+ snum) = true <-> (n <= v)%Q)
  /\ (filterMatches cell ("<=" +:+ snum) = true <-> (v <= n)%Q)
  /\ (filterMatches cell (">" +:+ snum) = true <-> (n < v)%Q)
  /\ (filterMatches cell ("<" +:+ snum) = true <-> (v < n)%Q)
  /\ (filterMatches cell ("==" +:+ snum) = true <-> (v == n)%Q)
  /\ (filterMatches cell ("=" +:+ snum) = true <-> (v == n)%Q).
Proof.
  intros Hcell Hnum.
  destruct (number_head snum n Hnum) as (d & s' & -> & Hd).
  pose proof (Hd ">"%char eq_refl) as Hgt. pose proof (Hd "<"%char eq_refl) as Hlt.
  pose proof (Hd "="%char eq_refl) as Heq.
  unfold filterMatches.
  change (">=" +:+ String d s') with (String ">" (String "=" (String d s'))).
  change ("<=" +:+ String d s') with (String "<" (String "=" (String d s'))).
  change ("==" +:+ String d s') with (String "=" (String "=" (String d s'))).
  change (">" +:+ String d s') with (String ">" (String d s')).
  change ("<" +:+ String d s') with (String "<" (String d s')).
  change ("=" +:+ String d s') with (String "=" (String d s')).
  simpl QString.startsWith. rewrite ?Heq. simpl.
  rewrite Hcell, Hnum.
  rewrite !Qle_bool_iff, !negb_true_iff, Qeq_bool_iff.
  repeat split; intros H;
    try (apply Qnot_le_lt; intros Hle; apply Qle_bool_iff in Hle; congruence);
    try (destruct (Qle_bool _ _) eqn:E; [apply Qle_bool_iff in E; lra|reflexivity]);
    assumption.
Qed.

End FilterMore.

Lemma comparison_filters_witness :
  (MainWindow.filterMatches "6" (">=" +:+ "5") = true <-> (5 <= 6)%Q)
  /\ (MainWindow.filterMatches "6" ("<=" +:+ "5") = true <-> (6 <= 5)%Q)
  /\ (MainWindow.filterMatches "6" (">" +:+ "5") = true <-> (5 < 6)%Q)
  /\ (MainWindow.filterMatches "6" ("<" +:+ "5") = true <-> (6 < 5)%Q)
  /\ (MainWindow.filterMatches "6" ("==" +:+ "5") = true <-> (6 == 5)%Q)
  /\ (MainWindow.filterMatches "6" ("=" +:+ "5") = true <-> (6 == 5)%Q).
Proof.
  apply (@comparison_filters decimalToDouble decimalToDouble_laws "6" "5" 6 5);
    reflexivity.
Defined.

Section FilterFallback.
Context `{TD : ToDouble}.
Import MainWindow.

(** X9. The substring fallback: a cell that is not a number is tested by
    every filter text, comparison and range texts included, for containing
    that text, letter case ignored; and a filter text that neither starts
    with a comparison sign nor holds a colon tests every cell that way,
    numbers included. *)
Theorem filter_falls_back_to_substring cell filterText :
  (toDouble cell = None ->
   filterMatches cell filterText = QString.containsCI cell filterText)
  /\ (QString.startsWith filterText ">" = false ->
      QString.startsWith filterText "<" = false ->
      QString.startsWith filterText "=" = false ->
      QString.containsChar QString.colon filterText = false ->
      filterMatches cell filterText = QString.containsCI cell filterText).
Proof.
  split.
  - intros Hcell. unfold filterMatches. rewrite Hcell.
    destruct (_ || _ || _); [reflexivity|].
    destruct (QString.containsChar QString.colon filterText); [|reflexivity].
    destruct (QString.split QString.colon filterText) as [|a [|b [|? ?]]]; reflexivity.
  - intros H1 H2 H3 H4. unfold filterMatches. rewrite H1, H2, H3, H4. reflexivity.
Qed.

Lemma filtering_headers w :
  headers (currentlyDisplayedData (applyTableFilters w)) = headers (currentCsvData w).
Proof.
  unfold applyTableFilters. destruct (negb (anyFilterActive w)); reflexivity.
Qed.

Lemma sublist_List_filter {A} (f : A -> bool) (l : list A) : sublist (List.filter f l) l.
Proof.
  induction l as [|x l IH]; simpl; [constructor|].
  destruct (f x); [apply sublist_skip|apply sublist_cons]; exact IH.
Qed.

(** X10. Whatever the filter texts, applying the filters keeps the headers
    of the loaded table and displays rows of the loaded table only, each at
    most as often as it is loaded and in the loaded order. *)
Theorem filtering_keeps_headers_and_order w :
  headers (currentlyDisplayedData (applyTableFilters w)) = headers (currentCsvData w)
  /\ sublist (rows (currentlyDisplayedData (applyTableFilters w)))
             (rows (currentCsvData w)).
Proof.
  unfold applyTableFilters. destruct (negb (anyFilterActive w)); simpl.
  - split; reflexivity.
  - split; [reflexivity|apply sublist_List_filter].
Qed.

Lemma updateTableDisplay_boxes w :
  headers (currentlyDisplayedData w) = headers (currentCsvData w) ->
  headerFilters (updateTableDisplay w)
  = repeat (Some EmptyString) (length (headers (currentCsvData w))).
Proof.
  intros Hh. unfold updateTableDisplay. simpl. rewrite Hh.
  destruct (_ && _ && _); reflexivity.
Qed.

Lemma activeFilters_empty_boxes w n :
  headerFilters w = repeat (Some EmptyString) n -> anyFilterActive w = false.
Proof.
  intros Hf. unfold anyFilterActive, activeFilters. rewrite Hf. clear Hf.
  induction n as [|n IH]; [reflexivity|exact IH].
Qed.

(** X11. Applying the filters empties the filter boxes: the rebuilt table
    has one empty box per header of the loaded table, so applying the
    filters once more, with nothing typed in between, displays the whole
    loaded table again. *)
Theorem apply_filters_resets_boxes w :
  let w1 := applyTableFiltersAndRedisplay w in
  currentCsvData w1 = currentCsvData w
  /\ currentlyDisplayedData w1 = currentlyDisplayedData (applyTableFilters w)
  /\ headerFilters w1
     = repeat (Some EmptyString) (length (headers (currentCsvData w)))
  /\ currentlyDisplayedData (applyTableFiltersAndRedisplay w1) = currentCsvData w.
Proof.
  intros w1. subst w1. unfold applyTableFiltersAndRedisplay.
  assert (Hcur : currentCsvData (applyTableFilters w) = currentCsvData w).
  { unfold applyTableFilters. destruct (negb (anyFilterActive w)); reflexivity. }
  assert (Hbox : headerFilters (updateTableDisplay (applyTableFilters w))
                 = repeat (Some EmptyString) (length (headers (currentCsvData w)))).
  { rewrite updateTableDisplay_boxes; rewrite Hcur; [reflexivity|].
    apply filtering_headers. }
  split; [exact Hcur|]. split; [reflexivity|]. split; [exact Hbox|].
  change (currentlyDisplayedData (updateTableDisplay ?x))
    with (currentlyDisplayedData x).
  unfold applyTableFilters at 1.
  rewrite (activeFilters_empty_boxes _ _ Hbox). simpl. exact Hcur.
Qed.

End FilterFallback.

Lemma filter_falls_back_to_substring_witness :
  MainWindow.filterMatches "v>5" ">5" = QString.containsCI "v>5" ">5".
Proof.
  apply (proj1 (@filter_falls_back_to_substring decimalToDouble "v>5" ">5")).
  reflexivity.
Defined.

(** * Further properties of the emitter colours *)

Section ColourMore.
Import MainWindow.

Lemma requestSpec_fresh w id c w' :
  0 <= id -> emitterColorMap w !! id = None -> requestSpec w id c w' ->
  paletteOf w !! Z.to_nat (nextColorIndex w mod Z.of_nat (length (paletteOf w))) = Some c
  /\ paletteOf w' = paletteOf w
  /\ nextColorIndex w' = nextColorIndex w + 1
  /\ emitterColorMap w' = <[id := c]> (emitterColorMap w).
Proof.
  intros Hid Hm. unfold requestSpec.
  destruct (Z.ltb_spec id 0) as [?|_]; [lia|]. rewrite Hm.
  intros [Hc ->]. split; [exact Hc|]. simpl. repeat split.
  pose proof (paletteOf_nonempty w) as Hlen.
  unfold paletteOf at 1. simpl.
  destruct (paletteOf w) eqn:E; [simpl in Hlen; lia|reflexivity].
Qed.

(** X12. The palette is handed out cyclically: in a sequence of requests
    for distinct ids of zero or more that have no colour yet, the request at
    position [k] gets palette[(nextColorIndex + k) mod paletteSize], so two
    such ids get the same colour when their positions differ by the palette
    size (15 for the default palette). *)
Theorem palette_cycles ids : forall w,
  NoDup ids ->
  (forall id, In id ids -> 0 <= id /\ emitterColorMap w !! id = None) ->
  0 <= nextColorIndex w ->
  nextColorIndex w + Z.of_nat (length ids) <= INT_MAX ->
  exists cs w',
    getEmitterColors ids w = Some (cs, w')
    /\ forall k, (k < length ids)%nat ->
         cs !! k = paletteOf w !! Z.to_nat ((nextColorIndex w + Z.of_nat k)
                                            mod Z.of_nat (length (paletteOf w))).
Proof.
  induction ids as [|id ids IH]; intros w Hnd Hfresh H0 Hmax.
  { exists [], w. split; [reflexivity|]. simpl. intros k Hk. lia. }
  simpl in Hmax. simpl.
  destruct (getEmitterColor_spec w id) as (c & w1 & E & Hs); [lia|].
  destruct (Hfresh id (or_introl eq_refl)) as [Hid Hm].
  destruct (requestSpec_fresh w id c w1 Hid Hm Hs) as (Hc & Hpal & Hnext & Hmap).
  inversion Hnd as [|? ? Hnotin Hnd']; subst.
  destruct (IH w1 Hnd') as (cs & w2 & E2 & Hcs).
  { intros j Hj. destruct (Hfresh j (or_intror Hj)) as [Hj0 Hjm]. split; [exact Hj0|].
    rewrite Hmap, lookup_insert_ne; [exact Hjm|]. intros ->.
    apply Hnotin, list_elem_of_In, Hj. }
  { lia. }
  { lia. }
  rewrite E, E2. exists (c :: cs), w2. split; [reflexivity|].
  intros k Hk. destruct k as [|k]; simpl.
  - rewrite Z.add_0_r. symmetry. exact Hc.
  - rewrite Hcs by lia. rewrite Hpal, Hnext. do 3 f_equal. lia.
Qed.

Lemma palette_cycles_witness :
  exists cs w',
    getEmitterColors (map Z.of_nat (seq 0 16)) init = Some (cs, w')
    /\ forall k, (k < length (map Z.of_nat (seq 0 16)))%nat ->
         cs !! k = paletteOf init !! Z.to_nat ((nextColorIndex init + Z.of_nat k)
                                               mod Z.of_nat (length (paletteOf init))).
Proof.
  apply (palette_cycles (map Z.of_nat (seq 0 16)) init).
  - apply NoDup_ListNoDup. vm_compute. repeat constructor; simpl; intuition discriminate.
  - intros id Hid. split.
    + apply in_map_iff in Hid as (n & <- & _). lia.
    + reflexivity.
  - vm_compute. discriminate.
  - vm_compute. discriminate.
Defined.

(** A request adds at most the requested id to the colour map. *)
Lemma getEmitterColor_new_key w id c w' k v :
  getEmitterColor id w = Some (c, w') ->
  emitterColorMap w' !! k = Some v ->
  emitterColorMap w !! k = Some v \/ (k = id /\ 0 <= id).
Proof.
  unfold getEmitterColor.
  destruct (id =? -2); [intros [= <- <-]; auto|].
  destruct (Z.ltb_spec id 0) as [?|Hid]; [intros [= <- <-]; auto|].
  destruct (emitterColorMap w !! id) eqn:Em; [intros [= <- <-]; auto|].
  set (w1 := match vibrantColors w with [] => populateDefaultColors w | _ :: _ => w end).
  assert (Hm1 : emitterColorMap w1 = emitterColorMap w).
  { subst w1. destruct (vibrantColors w); reflexivity. }
  destruct (vibrantColors w1); [intros [= <- <-]; rewrite Hm1; auto|].
  destruct (Z.rem _ _ <? 0); [discriminate|].
  destruct (_ !! Z.to_nat _); [|discriminate].
  destruct (nextColorIndex w1 =? INT_MAX); [discriminate|].
  intros [= <- <-]. simpl. rewrite Hm1.
  destruct (decide (id = k)) as [->|Hne].
  - intros _. right. auto.
  - rewrite lookup_insert_ne by exact Hne. auto.
Qed.

(** X13. After a sequence of requests the colour map holds a colour for
    exactly the ids it held one for before and the requested ids of zero or
    more: a request for an id below zero never enters the map. *)
Theorem colour_map_domain ids : forall w cs w',
  getEmitterColors ids w = Some (cs, w') ->
  forall id, is_Some (emitterColorMap w' !! id)
             <-> is_Some (emitterColorMap w !! id) \/ (In id ids /\ 0 <= id).
Proof.
  induction ids as [|i0 ids IH]; intros w cs w' Hrun id.
  { injection Hrun as <- <-. simpl. tauto. }
  simpl in Hrun.
  destruct (getEmitterColor i0 w) as [[c1 w1]|] eqn:E1; [|discriminate].
  destruct (getEmitterColors ids w1) as [[cs2 w2]|] eqn:E2; [|discriminate].
  injection Hrun as <- <-.
  destruct (getEmitterColor_step _ _ _ _ E1) as (Hkeep & _ & Hrec & _).
  rewrite (IH _ _ _ E2). simpl. split.
  - intros [[v Hv]|[Hin Hid]]; [|tauto].
    destruct (getEmitterColor_new_key _ _ _ _ _ _ E1 Hv) as [Hold|[-> Hid]];
      [left; eauto|right; auto].
  - intros [[v Hv]|[[->|Hin] Hid]].
    + left. eauto.
    + left. eauto.
    + right. auto.
Qed.

Lemma colour_map_domain_witness :
  (is_Some (emitterColorMap
              (mkState CsvData_empty CsvData_empty []
                       (<[3 := QColor_darker Qt_green 120]> ∅)
                       defaultColors 1) !! 3)
   <-> is_Some (emitterColorMap init !! 3) \/ (In 3 [3; -1; -2] /\ 0 <= 3))
  /\ (is_Some (emitterColorMap
                 (mkState CsvData_empty CsvData_empty []
                          (<[3 := QColor_darker Qt_green 120]> ∅)
                          defaultColors 1) !! (-1))
      <-> is_Some (emitterColorMap init !! (-1))
          \/ (In (-1) [3; -1; -2] /\ 0 <= -1)).
Proof.
  split;
    apply (colour_map_domain [3; -1; -2] init
             [QColor_darker Qt_green 120; QColor_global Qt_darkGray;
              QColor_global Qt_red]);
    vm_compute; reflexivity.
Defined.

End ColourMore.

(** * Further properties of the scatter plot *)

Section PlotMore.
Import SimplePlotWidget.
Local Open Scope Q_scope.
Local Arguments calculateDataBoundingRect : simpl never.















End PlotMore.

(** * Properties of the emitter reference and the labels *)

Section ReferenceFacts.
Context `{TI : ToInt}.
Import MainWindow.

Lemma referenceLine_entry m line :
  referenceLine m line
  = match lineEntry line with
    | Some (id, name) => <[id := name]> m
    | None => m
    end.
Proof.
  unfold referenceLine, lineEntry.
  destruct (QString.split "=" line) as [|p0 [|p1 [|? ?]]]; try reflexivity.
  destruct (toInt (QString.trimmed p1)); reflexivity.
Qed.

(** With enough fuel the loop works through the lines of the text. *)
Lemma readReference_lines fuel : forall text m,
  (String.length text <= fuel)%nat ->
  readReference fuel text m = Some (fold_left referenceLine (textLines text) m).
Proof.
  induction fuel as [|fuel IH]; intros text m Hlen.
  - destruct text; simpl in *; [reflexivity|lia].
  - destruct text as [|c text]; [reflexivity|].
    cbn [readReference QTextStream.atEnd QString.isEmpty].
    rewrite (textLines_readLine (String c text)) by discriminate.
    pose proof (readLine_shrinks (String c text)) as Hs.
    destruct (QTextStream.readLine (String c text)) as [line rest]. simpl in *.
    apply IH. lia.
Qed.

Lemma fold_referenceLine_nonempty ls : forall m,
  m <> ∅ -> fold_left referenceLine ls m <> ∅.
Proof.
  induction ls as [|l ls IH]; intros m Hm; [exact Hm|].
  simpl. apply IH. rewrite referenceLine_entry.
  destruct (lineEntry l) as [[id name]|]; [|exact Hm].
  apply insert_non_empty.
Qed.

Lemma fold_referenceLine_keeps ls id : forall m,
  Forall (fun l => forall name, lineEntry l <> Some (id, name)) ls ->
  fold_left referenceLine ls m !! id = m !! id.
Proof.
  induction ls as [|l ls IH]; intros m Hall; [reflexivity|].
  inversion Hall as [|? ? Hl Hrest]; subst. simpl.
  rewrite (IH _ Hrest), referenceLine_entry.
  destruct (lineEntry l) as [[id' name]|] eqn:E; [|reflexivity].
  apply lookup_insert_ne. intros ->. exact (Hl name eq_refl).
Qed.

Lemma fold_referenceLine_none ls : forall m,
  Forall (fun l => lineEntry l = None) ls -> fold_left referenceLine ls m = m.
Proof.
  induction ls as [|l ls IH]; intros m Hall; [reflexivity|].
  inversion Hall as [|? ? Hl Hrest]; subst. simpl.
  rewrite referenceLine_entry, Hl. apply IH, Hrest.
Qed.

(** X18. The emitter reference is never left empty: it is the three
    default entries when no file could be opened and when the file defines
    no entry, and the entries of the file otherwise. *)
Theorem reference_never_empty file :
  exists m, loadEmitterReference file = Some m
            /\ m <> ∅
            /\ (file = None -> m = defaultReference)
            /\ (forall text, file = Some text ->
                  Forall (fun l => lineEntry l = None) (textLines text) ->
                  m = defaultReference).
Proof.
  assert (Hdef : defaultReference <> ∅) by apply insert_non_empty.
  destruct file as [text|]; simpl.
  - rewrite readReference_lines by reflexivity.
    destruct (bool_decide (fold_left referenceLine (textLines text) ∅ = ∅)) eqn:E.
    + exists defaultReference. split; [reflexivity|]. split; [exact Hdef|].
      split; [discriminate|]. reflexivity.
    + apply bool_decide_eq_false in E. eexists; split; [reflexivity|].
      split; [exact E|]. split; [discriminate|].
      intros text' [= <-] Hnone. exfalso. apply E.
      apply fold_referenceLine_none, Hnone.
  - exists defaultReference. split; [reflexivity|]. split; [exact Hdef|].
    split; [reflexivity|]. discriminate.
Qed.

(** X19. In the reference file a later line replaces an earlier one: the
    name kept for an id is the one of the last line that defines the id, and
    it is the label of that id, except for the id -2, whose label is always
    "Invalid Emitter ID", whatever the file says. *)
Theorem reference_last_line_wins text pre line post id name :
  textLines text = pre ++ line :: post ->
  lineEntry line = Some (id, name) ->
  Forall (fun l => forall n, lineEntry l <> Some (id, n)) post ->
  exists m, loadEmitterReference (Some text) = Some m
            /\ m !! id = Some name
            /\ (id <> -2 -> getEmitterLabel m id = name)
            /\ getEmitterLabel m (-2) = "Invalid Emitter ID".
Proof.
  intros Hlines Hline Hpost. simpl.
  rewrite readReference_lines by reflexivity.
  rewrite Hlines, fold_left_app. simpl.
  set (m := fold_left referenceLine post _).
  assert (Hm : m !! id = Some name).
  { subst m. rewrite (fold_referenceLine_keeps post id _ Hpost).
    rewrite referenceLine_entry, Hline. apply lookup_insert_eq. }
  assert (Hne : m <> ∅).
  { intros E. rewrite E, lookup_empty in Hm. discriminate. }
  rewrite (bool_decide_eq_false_2 _ Hne).
  exists m. split; [reflexivity|]. split; [exact Hm|]. split; [|reflexivity].
  intros Hid. unfold getEmitterLabel.
  destruct (Z.eqb_spec id (-2)) as [?|_]; [contradiction|].
  rewrite Hm. reflexivity.
Qed.

End ReferenceFacts.

Lemma reference_last_line_wins_witness :
  exists m,
    MainWindow.loadEmitterReference
      (Some ("Radar = 4" +:+ MainWindow.nl +:+ "broken line" +:+ MainWindow.nl
             +:+ "Sonar=-2" +:+ MainWindow.nl +:+ " Lidar =4 " +:+ MainWindow.nl
             +:+ "Beacon=x"))
    = Some m
    /\ m !! 4 = Some "Lidar"
    /\ (4 <> -2 -> MainWindow.getEmitterLabel m 4 = "Lidar")
    /\ MainWindow.getEmitterLabel m (-2) = "Invalid Emitter ID".
Proof.
  apply (@reference_last_line_wins decimalToInt _
           ["Radar = 4"; "broken line"; "Sonar=-2"] " Lidar =4 " ["Beacon=x"]).
  - vm_compute. reflexivity.
  - vm_compute. reflexivity.
  - repeat constructor. intros n. vm_compute. discriminate.
Defined.

(** * Properties of the column searches and of updatePlot *)

Section ColumnFacts.
Import MainWindow.

Lemma startsWith_cons s a p :
  QString.startsWith s (String a p) = true ->
  exists s', s = String a s' /\ QString.startsWith s' p = true.
Proof.
  destruct s as [|b s']; simpl; [discriminate|].
  intros H. apply andb_true_iff in H as [Hab Hp].
  apply Ascii.eqb_eq in Hab. subst b. eauto.
Qed.

Lemma startsWith_EmitterID s :
  QString.startsWith s "EmitterID" = true -> QString.startsWithCI s "emitter" = true.
Proof.
  intros H.
  repeat (apply startsWith_cons in H as (? & -> & H)).
  reflexivity.
Qed.

(** The second test of line 496 is implied by the first. *)
Lemma containsStr_EmitterID s :
  QString.containsStr s "EmitterID" = true -> QString.containsCI s "emitter" = true.
Proof.
  induction s as [|c s IH]; intros H.
  - discriminate.
  - cbn [QString.containsStr] in H. cbn [QString.containsCI].
    apply orb_true_iff in H as [H|H].
    + rewrite (startsWith_EmitterID _ H). reflexivity.
    + rewrite (IH H). apply orb_true_r.
Qed.

(** X20. The emitter column is the first header that contains "emitter",
    letter case ignored: the search returns the header at index [i] exactly
    when that header contains it and no header before it does. The second,
    case-sensitive test for "EmitterID" never decides. *)
Theorem emitter_column_is_first hs : forall start h i,
  findEmitterColumn hs start = Some (h, i) <->
  exists k, i = (start + k)%nat /\ hs !! k = Some h
            /\ QString.containsCI h "emitter" = true
            /\ forall j h', (j < k)%nat -> hs !! j = Some h' ->
                  QString.containsCI h' "emitter" = false.
Proof.
  induction hs as [|h0 hs IH]; intros start h i; simpl.
  - split; [discriminate|]. intros (k & _ & Hk & _). discriminate.
  - destruct (QString.containsCI h0 "emitter") eqn:E0; simpl.
    + split.
      * intros [= <- <-]. exists 0%nat.
        split; [lia|]. split; [reflexivity|]. split; [exact E0|].
        intros j h' Hj. lia.
      * intros (k & -> & Hk & Hc & Hfirst). destruct k as [|k].
        -- injection Hk as <-. f_equal. f_equal. lia.
        -- specialize (Hfirst 0%nat h0 ltac:(lia) eq_refl). congruence.
    + destruct (QString.containsStr h0 "EmitterID") eqn:E1.
      { apply containsStr_EmitterID in E1. congruence. }
      rewrite IH. split.
      * intros (k & -> & Hk & Hc & Hfirst). exists (S k).
        split; [lia|]. split; [exact Hk|]. split; [exact Hc|].
        intros j h' Hj Hh'. destruct j as [|j]; simpl in Hh'.
        -- injection Hh' as <-. exact E0.
        -- apply (Hfirst j); [lia|exact Hh'].
      * intros (k & -> & Hk & Hc & Hfirst). destruct k as [|k]; simpl in Hk.
        -- injection Hk as <-. congruence.
        -- exists k. split; [lia|]. split; [exact Hk|]. split; [exact Hc|].
           intros j h' Hj Hh'. apply (Hfirst (S j)); [lia|exact Hh'].
Qed.

Lemma columnIndex_spec hs name : forall start found,
  columnIndex hs name start found
  = match columnIndex hs name start None with
    | Some i => Some i
    | None => found
    end.
Proof.
  induction hs as [|h hs IH]; intros start found; simpl; [reflexivity|].
  destruct (String.eqb h name).
  - rewrite (IH (S start) (Some start)).
    destruct (columnIndex hs name (S start) None); reflexivity.
  - apply IH.
Qed.

(** X21. The column of an axis name is the last header equal to the name:
    the search, which does not stop at a match, finds index [i] exactly when
    the header at [i] is the name and no later header is, and finds nothing
    exactly when no header is the name. *)
Theorem column_index_is_last hs name : forall start,
  (forall i, columnIndex hs name start None = Some i <->
     exists k, i = (start + k)%nat /\ hs !! k = Some name
               /\ forall j, (k < j)%nat -> hs !! j <> Some name)
  /\ (columnIndex hs name start None = None <-> ~ In name hs).
Proof.
  assert (Hin : forall (l : list string) k, l !! k = Some name -> In name l).
  { intros l k Hk. apply list_elem_of_In. eapply list_elem_of_lookup_2. exact Hk. }
  induction hs as [|h hs IH]; intros start.
  { simpl. split; [|tauto]. intros i. split; [discriminate|].
    intros (k & _ & Hk & _). discriminate. }
  destruct (IH (S start)) as [IHs IHn]. simpl.
  rewrite columnIndex_spec.
  destruct (columnIndex hs name (S start) None) as [i'|] eqn:E.
  - split.
    + intros i. split.
      * intros [= <-]. destruct (proj1 (IHs i') eq_refl) as (k & -> & Hk & Hlast).
        exists (S k). split; [lia|]. split; [exact Hk|].
        intros j Hj. destruct j as [|j]; [lia|]. simpl. apply Hlast. lia.
      * intros (k & -> & Hk & Hlast). f_equal.
        destruct (proj1 (IHs i') eq_refl) as (k' & -> & Hk' & Hlast').
        destruct k as [|k].
        -- exfalso. apply (Hlast (S k')); [lia|exact Hk'].
        -- simpl in Hk. destruct (Nat.lt_trichotomy k k') as [Hlt|[->|Hgt]]; [|lia|].
           ++ exfalso. apply (Hlast (S k')); [lia|exact Hk'].
           ++ exfalso. apply (Hlast' k); [lia|exact Hk].
    + split; [discriminate|]. intros Hn.
      destruct (proj1 (IHs i') eq_refl) as (k & _ & Hk & _). exfalso. apply Hn. right.
      exact (Hin _ _ Hk).
  - clear E. pose proof (proj1 IHn eq_refl) as E. destruct (String.eqb_spec h name) as [->|Hne].
    + split.
      * intros i. split.
        -- intros [= <-]. exists 0%nat. split; [lia|]. split; [reflexivity|].
           intros j Hj Hj'. destruct j as [|j]; [lia|]. simpl in Hj'.
           exact (E (Hin _ _ Hj')).
        -- intros (k & -> & Hk & _). destruct k as [|k]; [f_equal; lia|].
           simpl in Hk. exfalso. exact (E (Hin _ _ Hk)).
      * split; [discriminate|]. intros Hn. exfalso. apply Hn. left. reflexivity.
    + split.
      * intros i. split; [discriminate|].
        intros (k & -> & Hk & _). destruct k as [|k]; simpl in Hk; [congruence|].
        exfalso. exact (E (Hin _ _ Hk)).
      * split; [|reflexivity]. intros _ [Hh|Hin']; [congruence|contradiction].
Qed.

End ColumnFacts.

Lemma emitter_column_is_first_witness :
  MainWindow.findEmitterColumn ["Time"; "emitterId"; "EMITTER"] 0
  = Some ("emitterId", 1%nat).
Proof.
  apply (proj2 (emitter_column_is_first ["Time"; "emitterId"; "EMITTER"] 0
                  "emitterId" 1)).
  exists 1%nat. split; [reflexivity|]. split; [reflexivity|].
  split; [vm_compute; reflexivity|].
  intros j h' Hj Hh'. destruct j as [|j]; [|lia].
  injection Hh' as <-. vm_compute. reflexivity.
Defined.

Lemma column_index_is_last_witness :
  MainWindow.columnIndex ["a"; "b"; "a"] "a" 0 None = Some 2%nat.
Proof.
  apply (proj2 (proj1 (column_index_is_last ["a"; "b"; "a"] "a" 0) 2%nat)).
  exists 2%nat. split; [reflexivity|]. split; [reflexivity|].
  intros j Hj. destruct j as [|[|[|j]]]; try lia. discriminate.
Defined.

Lemma reference_never_empty_witness :
  exists m, MainWindow.loadEmitterReference (Some "no names here") = Some m
            /\ m = MainWindow.defaultReference.
Proof.
  destruct (@reference_never_empty decimalToInt (Some "no names here"))
    as (m & E & _ & _ & H).
  exists m. split; [exact E|].
  apply (H "no names here" eq_refl).
  repeat constructor.
Defined.

(** * Properties of the window's handlers *)

Section WindowFlow.
Context `{TD : ToDouble} `{TI : ToInt}.
Import MainWindow MainWindowPlot.

Lemma clearTableFilters_eq w :
  clearTableFilters w
  = mkState (currentCsvData w) (currentCsvData w)
            (repeat (Some EmptyString) (length (headers (currentCsvData w))))
            (emitterColorMap w) (vibrantColors w) (nextColorIndex w).
Proof.
  unfold clearTableFilters, updateTableDisplay. simpl.
  destruct (_ && _ && _); reflexivity.
Qed.


(** X23. After a loading error the window holds no table and no filter
    box, an export reports that there is nothing to export and the plot
    gets no point, whatever the axis selectors say; the colours given to the
    emitters of the previous table are not forgotten. *)
Theorem load_error_empties_window w filePath opens x y e :
  let w1 := handleCsvLoadingError w in
  currentCsvData w1 = CsvData_empty
  /\ currentlyDisplayedData w1 = CsvData_empty
  /\ headerFilters w1 = []
  /\ emitterColorMap w1 = emitterColorMap w
  /\ nextColorIndex w1 = nextColorIndex w
  /\ exportFilteredData w1 filePath opens = NoDataToExport
  /\ updatePlot (currentlyDisplayedData w1) x y e
     = mkPlotInput [] [] "X-Axis" "Y-Axis" "Plot".
Proof.
  intros w1. subst w1. unfold handleCsvLoadingError.
  rewrite clearTableFilters_eq. simpl.
  repeat (split; [reflexivity|]).
  unfold updatePlot. simpl. rewrite !orb_true_r. reflexivity.
Qed.

Lemma columnIndex_None hs name : forall start,
  ~ In name hs -> columnIndex hs name start None = None.
Proof.
  induction hs as [|h hs IH]; intros start Hn; simpl; [reflexivity|].
  destruct (String.eqb_spec h name) as [->|Hne].
  - exfalso. apply Hn. left. reflexivity.
  - apply IH. intros Hin. apply Hn. right. exact Hin.
Qed.

Lemma column_index_lookup hs name : forall start i,
  columnIndex hs name start None = Some i ->
  exists k, i = (start + k)%nat /\ hs !! k = Some name.
Proof.
  induction hs as [|h hs IH]; intros start i; simpl; [discriminate|].
  rewrite columnIndex_spec.
  destruct (columnIndex hs name (S start) None) as [i'|] eqn:E.
  - intros [= <-]. destruct (IH _ _ E) as (k & -> & Hk).
    exists (S k). split; [lia|exact Hk].
  - destruct (String.eqb_spec h name) as [->|Hne]; [|discriminate].
    intros [= <-]. exists 0%nat. split; [lia|reflexivity].
Qed.

Lemma omap_length_le {A B} (f : A -> option B) l :
  (length (omap f l) <= length l)%nat.
Proof.
  induction l as [|a l IH]; csimpl; [lia|].
  destruct (f a); csimpl; lia.
Qed.

Lemma rowPoint_no_emitter xi yi row p id :
  rowPoint xi yi None row = Some (p, id) -> id = -1.
Proof.
  unfold rowPoint. destruct (_ && _); [|discriminate].
  destruct (toDouble _); [|discriminate].
  destruct (toDouble _); [|discriminate].
  intros [= _ <-]. reflexivity.
Qed.

Lemma rowPoint_spec xi yi ei row p id :
  rowPoint xi yi ei row = Some (p, id) ->
  toDouble (nth xi row EmptyString) = Some (pt_x p)
  /\ toDouble (nth yi row EmptyString) = Some (pt_y p)
  /\ (xi < length row)%nat /\ (yi < length row)%nat.
Proof.
  unfold rowPoint.
  destruct (xi <? length row)%nat eqn:Ex; [|discriminate].
  destruct (yi <? length row)%nat eqn:Ey; [|discriminate]. simpl.
  destruct (toDouble (nth xi row EmptyString)); [|discriminate].
  destruct (toDouble (nth yi row EmptyString)); [|discriminate].
  intros [= <- _]. simpl.
  apply Nat.ltb_lt in Ex, Ey. auto.
Qed.

(** X24. What [updatePlot] hands to the plot widget: as many emitter ids as
    points and at most one point per displayed row; every point is made of
    the two numbers read in the chosen columns of a displayed row; no point
    when an axis name is not a header; and the id -1 for every point when
    the emitter column is not a header. *)
Theorem plot_points_and_ids d x y e :
  let p := updatePlot d x y e in
  length (emitterIdsForPlot p) = length (points p)
  /\ (length (points p) <= length (rows d))%nat
  /\ (forall pt, In pt (points p) ->
        exists row xi yi, In row (rows d)
          /\ headers d !! xi = Some x /\ headers d !! yi = Some y
          /\ toDouble (nth xi row EmptyString) = Some (pt_x pt)
          /\ toDouble (nth yi row EmptyString) = Some (pt_y pt))
  /\ (~ In x (headers d) \/ ~ In y (headers d) -> points p = [])
  /\ (~ In e (headers d) -> Forall (fun id => id = -1) (emitterIdsForPlot p)).
Proof.
  intros p. subst p. unfold updatePlot.
  destruct (_ || _ || _).
  { simpl. repeat split; auto; try lia; try (intros pt []). }
  destruct (columnIndex (headers d) x 0 None) as [xi|] eqn:Ex.
  2:{ simpl. repeat split; auto; try lia; try (intros pt []). }
  destruct (columnIndex (headers d) y 0 None) as [yi|] eqn:Ey.
  2:{ simpl. repeat split; auto; try lia; try (intros pt []). }
  cbv zeta. cbn [points emitterIdsForPlot].
  split; [rewrite !length_map; reflexivity|].
  split; [rewrite length_map; apply omap_length_le|].
  split; [|split].
  - intros pt Hin. apply in_map_iff in Hin as ([pt' id] & <- & Hin).
    apply list_elem_of_In, list_elem_of_omap in Hin as (row & Hrow & Hpt).
    apply rowPoint_spec in Hpt as (Hx & Hy & _ & _).
    destruct (column_index_lookup (headers d) x 0 xi Ex) as (kx & -> & Hkx).
    destruct (column_index_lookup (headers d) y 0 yi Ey) as (ky & -> & Hky).
    exists row, kx, ky. simpl in *.
    split; [apply list_elem_of_In; exact Hrow|]. auto.
  - intros [Hn|Hn].
    + rewrite (columnIndex_None _ _ 0%nat Hn) in Ex. discriminate.
    + rewrite (columnIndex_None _ _ 0%nat Hn) in Ey. discriminate.
  - intros Hn. rewrite (columnIndex_None _ _ 0%nat Hn).
    apply Forall_forall. intros id Hin.
    apply list_elem_of_In, in_map_iff in Hin as ([pt id'] & <- & Hin).
    apply list_elem_of_In, list_elem_of_omap in Hin as (row & _ & Hpt).
    exact (rowPoint_no_emitter _ _ _ _ _ Hpt).
Qed.

End WindowFlow.

Lemma plot_points_and_ids_witness :
  Forall (fun id => id = -1)
    (MainWindowPlot.emitterIdsForPlot
       (MainWindowPlot.updatePlot
          (mkCsvData ["t"; "v"] [["1"; "2"]; ["x"; "3"]; ["4"]]) "t" "v" "id")).
Proof.
  pose proof (@plot_points_and_ids decimalToDouble decimalToInt
                (mkCsvData ["t"; "v"] [["1"; "2"]; ["x"; "3"]; ["4"]]) "t" "v" "id")
    as H.
  cbv zeta in H. destruct H as (_ & _ & _ & _ & H). apply H.
  simpl. intros [E|[E|[]]]; discriminate E.
Defined.
